(** * HuddleCamPTZ: the VISCA protocol engine of [Huddlecam.js]

    A shallow embedding of the [Huddlecam] class (frame encoder, coordinate
    codec, response decoder, request/response correlator and the cached
    camera state) together with the properties of its specification. The
    class is taken in its current form, the one with [moveTo] and the
    decoding [positionInquiry]. The older copy that follows it in the file
    is not modelled: its constructor sets the field [position], which hides
    the method of that name.

    Conventions of the embedding:
    - a numeric argument of the encoder is a [Z] where it is an integer, and
      a [Numeric.Number] (a dyadic rational, [NaN] or an infinity) where it
      is any JavaScript Number; the two forms of a method agree on integers
      (lemmas [getPanSpeed_ofZ], [moveTo_ofZ], ...); [NaN] results of
      [parseInt] are [None];
    - JavaScript strings are [string]; a [Buffer] is a [list byte];
    - the object [this] is the record [Huddlecam]; methods are state
      transformers on it; promises are identified by a counter. *)

From Stdlib Require Import ZArith List Bool Lia Permutation.
From Stdlib.Strings Require Import String Ascii Byte.
From Stdlib Require Import DecimalString.
Import ListNotations.

Local Open Scope string_scope.
Local Open Scope Z_scope.

(** ** The JavaScript built-ins the class relies on *)

Module Js.

(** One lowercase hexadecimal digit, as [Number.prototype.toString(16)]
    prints it. *)
Definition hexChar (d : Z) : ascii :=
  match d with
  | 0 => "0" | 1 => "1" | 2 => "2" | 3 => "3"
  | 4 => "4" | 5 => "5" | 6 => "6" | 7 => "7"
  | 8 => "8" | 9 => "9" | 10 => "a" | 11 => "b"
  | 12 => "c" | 13 => "d" | 14 => "e" | _ => "f"
  end%char.

(** Value of a hexadecimal digit, either case, from its character code;
    [None] for any other character. *)
Definition unhex (c : ascii) : option Z :=
  let code := Z.of_N (N_of_ascii c) in
  if (48 <=? code) && (code <=? 57) then Some (code - 48)
  else if (97 <=? code) && (code <=? 102) then Some (code - 87)
  else if (65 <=? code) && (code <=? 70) then Some (code - 55)
  else None.

(** The digits of a non-negative integer, most significant first. *)
Fixpoint hexDigits (fuel : nat) (n : Z) : string :=
  match fuel with
  | O => ""
  | S f =>
      if n <? 16 then String (hexChar n) ""
      else hexDigits f (n / 16) ++ String (hexChar (n mod 16)) ""
  end.

(** Number of hexadecimal digits of [n] (1 for [n = 0]). *)
Definition digitCount (n : Z) : nat := S (Z.to_nat (Z.log2 n / 4)).

(** [num.toString(16)] on an integer: a minus sign followed by the digits
    of the magnitude when [num] is negative. *)
Definition toString16 (num : Z) : string :=
  if num <? 0 then String "-" (hexDigits (digitCount (- num)) (- num))
  else hexDigits (digitCount num) num.

Fixpoint repeatChar (c : ascii) (n : nat) : string :=
  match n with
  | O => ""
  | S k => String c (repeatChar c k)
  end.

(** [s.padStart(target, c)] for a one-character pad string. *)
Definition padStart (target : nat) (c : ascii) (s : string) : string :=
  repeatChar c (target - String.length s) ++ s.

(** [`${s[i]}`]: the character at index [i] as it is interpolated in a
    template literal; an index past the end reads [undefined]. *)
Definition at_ (s : string) (i : nat) : string :=
  match String.get i s with
  | Some c => String c ""
  | None => "undefined"
  end.

(** [s[i]] as a value: [None] is [undefined]. *)
Definition charAt (s : string) (i : nat) : option ascii := String.get i s.

(** [s.slice(a, b)] for indices [0 <= a <= b]. *)
Definition slice (a b : nat) (s : string) : string :=
  String.substring a (b - a) s.

(** The class [\s] on the code units below 256, which is all a character
    of this embedding can be: tab, line feed, vertical tab, form feed,
    carriage return, space and the no-break space. *)
Definition isSpace (c : ascii) : bool :=
  let n := N_of_ascii c in
  ((9 <=? n) && (n <=? 13) || (n =? 32) || (n =? 160))%N.

(** [cmd.replace(/\s+/g, '')]. *)
Fixpoint stripSpaces (s : string) : string :=
  match s with
  | "" => ""
  | String c r => if isSpace c then stripSpaces r else String c (stripSpaces r)
  end.

Fixpoint skipSpaces (s : string) : string :=
  match s with
  | "" => ""
  | String c r => if isSpace c then skipSpaces r else s
  end.

(** Value of the longest prefix of hexadecimal digits, accumulated from
    [acc]. *)
Fixpoint parseDigits (s : string) (acc : Z) : Z :=
  match s with
  | "" => acc
  | String c r =>
      match unhex c with
      | Some d => parseDigits r (acc * 16 + d)
      | None => acc
      end
  end.

(** [parseInt(raw, 16)]: leading white space is skipped, then an optional
    sign and an optional [0x] prefix; the longest prefix of hexadecimal
    digits is the value and an empty one gives [NaN] ([None]). *)
Definition parseInt16 (raw : string) : option Z :=
  let s1 := skipSpaces raw in
  let '(neg, s2) :=
    match s1 with
    | String "-" r => (true, r)
    | String "+" r => (false, r)
    | _ => (false, s1)
    end in
  let s3 :=
    match s2 with
    | String "0" (String "x" r) => r
    | String "0" (String "X" r) => r
    | _ => s2
    end in
  match s3 with
  | "" => None
  | String c _ =>
      match unhex c with
      | Some _ => Some (if neg then - parseDigits s3 0 else parseDigits s3 0)
      | None => None
      end
  end.

End Js.

(** ** Node's [Buffer], hexadecimal encoding *)

Module Buffer.

Definition byteOf (n : Z) : byte :=
  match Byte.of_N (Z.to_N n) with
  | Some b => b
  | None => x00
  end.

Definition valueOf (b : byte) : Z := Z.of_N (Byte.to_N b).

(** [Buffer.from(s, 'hex')]: characters are decoded two at a time and the
    decoding stops at the first pair that is not two hexadecimal digits
    (or at a trailing single character); what was decoded so far is the
    buffer. *)
Fixpoint fromHex (s : string) : list byte :=
  match s with
  | String a (String b rest) =>
      match Js.unhex a, Js.unhex b with
      | Some hi, Some lo => byteOf (16 * hi + lo) :: fromHex rest
      | _, _ => []
      end
  | _ => []
  end.

(** [data.toString('hex')]: two lowercase digits per byte. *)
Fixpoint toStringHex (data : list byte) : string :=
  match data with
  | [] => ""
  | b :: rest =>
      String (Js.hexChar (valueOf b / 16))
        (String (Js.hexChar (valueOf b mod 16)) (toStringHex rest))
  end.

End Buffer.

(** ** Coordinate codec: the private helpers [#toHex], [#extractHex], [#parseHex] *)

(** [#toHex(num)]: a negative number is shifted by [0x10000]; the result is
    printed in base 16 and left-padded with zeros to four characters. *)
Definition toHex (num : Z) : string :=
  let num := if num <? 0 then num + 0x10000 else num in
  Js.padStart 4 "0" (Js.toString16 num).

Fixpoint filterIndex (keep : nat -> bool) (idx : nat) (s : string) : string :=
  match s with
  | "" => ""
  | String c r =>
      if keep idx then String c (filterIndex keep (S idx) r)
      else filterIndex keep (S idx) r
  end.

(** [#extractHex(chunk)]: the characters at odd indices. *)
Definition extractHex (chunk : string) : string :=
  filterIndex (fun idx => Nat.eqb (idx mod 2) 1) 0 chunk.

(** [#parseHex(raw)]: the unsigned value read in base 16, reinterpreted as a
    signed 16-bit number. *)
Definition parseHex (raw : string) : option Z :=
  match Js.parseInt16 raw with
  | Some data => Some (if data >=? 0x8000 then data - 0x10000 else data)
  | None => None
  end.


(** ** The camera object *)

(** The [response] field of the object [State] that [sendCommand] settles
    its promise with: [true] for a command, the reply in hexadecimal for an
    inquiry, the transport's error when the write failed. *)
Inductive Response :=
| RespTrue
| RespHex (hex : string)
| RespError (err : string).

(** [CameraResponse]: the command sent and what came back. *)
Record CameraResponse := {
  command : string;
  response : Response
}.

(** [res.response[i]]: indexing anything but the reply text is [undefined]. *)
Definition responseAt (res : CameraResponse) (i : nat) : option ascii :=
  match response res with
  | RespHex hex => Js.charAt hex i
  | _ => None
  end.

(** [res.response.slice(a, b)] on the reply text. *)
Definition responseSlice (res : CameraResponse) (a b : nat) : string :=
  match response res with
  | RespHex hex => Js.slice a b hex
  | _ => ""
  end.

(** What a promise of the class is fulfilled with. The four fields of a
    version reply are kept as the sliced text [Number] is applied to. *)
Inductive Value :=
| VResponse (res : CameraResponse)
| VString (s : string)
| VNull
| VVersion (vendor model romRevision maxSocketNum : string)
| VPosition (pan tilt : option Z).

Inductive Outcome :=
| Fulfilled (v : Value)
| Rejected (res : CameraResponse).

(** What a method call evaluates to. *)
Inductive Returned :=
| Undefined
| Promise (id : nat).

(** One request in flight: the promise created by [sendCommand], the command
    text, the [inquiry] flag and the code that runs on the fulfilled
    [CameraResponse] (the rest of an [async] method after its [await], or
    the identity when the promise is returned as it is). *)
Record PendingOperation := {
  op_id : nat;
  op_command : string;
  op_inquiry : bool;
  op_then : CameraResponse -> Value
}.

(** The fields listed under [// States] in the constructor. *)
Record CameraStateSnapshot := {
  power : string;
  backlight : bool;
  position : option (Z * Z);
  focus : string;
  whiteBalance : string;
  exposure : string;
  shutterPos : option Z;
  irisPos : option Z;
  videoFormat : string;
  panTiltPos : option (Z * Z);
  colorFormat : string
}.

(** The object [this] together with the part of the runtime it interacts
    with: the buffers handed to [serial.write], the write callbacks that
    have not run yet, the one-shot ['data'] listeners that are armed, and
    the promises settled so far. *)
Record Huddlecam := {
  states : CameraStateSnapshot;
  written : list (list byte);
  writeCallbacks : list PendingOperation;
  dataListeners : list PendingOperation;
  settled : list (nat * Outcome);
  nextPromise : nat
}.

Definition Method := Huddlecam -> Huddlecam * Returned.

(** [new Huddlecam(path, baudRate)]: the state fields as the constructor
    sets them, nothing written and nothing pending. *)
Definition constructor : Huddlecam := {|
  states := {|
    power := "Unknown";
    backlight := false;
    position := None;
    focus := "Unknown";
    whiteBalance := "Unknown";
    exposure := "Unknown";
    shutterPos := None;
    irisPos := None;
    videoFormat := "Unknown";
    panTiltPos := None;
    colorFormat := "Unknown"
  |};
  written := [];
  writeCallbacks := [];
  dataListeners := [];
  settled := [];
  nextPromise := O
|}.

(** [sendCommand(cmd, inquiry)]: the promise's executor runs at once and
    hands [Buffer.from(cmd.replace(/\s+/g, ''), 'hex')] to [serial.write]
    with a callback; [andThen] is what the caller does with the fulfilled
    value. *)
Definition sendCommand (cmd : string) (inquiry : bool)
    (andThen : CameraResponse -> Value) : Method := fun cam =>
  let id := nextPromise cam in
  ({| states := states cam;
      written := (written cam ++ [Buffer.fromHex (Js.stripSpaces cmd)])%list;
      writeCallbacks :=
        (writeCallbacks cam ++
           [{| op_id := id; op_command := cmd;
               op_inquiry := inquiry; op_then := andThen |}])%list;
      dataListeners := dataListeners cam;
      settled := settled cam;
      nextPromise := S id |},
   Promise id).

(** An [async] method whose body is [return null]. *)
Definition asyncNull : Method := fun cam =>
  let id := nextPromise cam in
  ({| states := states cam;
      written := written cam;
      writeCallbacks := writeCallbacks cam;
      dataListeners := dataListeners cam;
      settled := (settled cam ++ [(id, Fulfilled VNull)])%list;
      nextPromise := S id |},
   Promise id).

(** *** Frame encoder

    The methods on integer arguments; module [Numeric] below gives them on
    every Number. *)

Definition cancelCommand (socket : Z) : Method :=
  let socket := if socket <? 1 then 1 else socket in
  let socket := if socket >? 2 then 2 else socket in
  let socketHex := Js.padStart 2 "0" (Js.toString16 socket) in
  sendCommand ("8x 2" ++ socketHex ++ " FF") false VResponse.

Definition powerOn : Method := sendCommand "81 01 04 00 02 FF" false VResponse.
Definition powerOff : Method := sendCommand "81 01 04 00 03 FF" false VResponse.

Definition exposureMode (mode : Z) : Method :=
  let mode := if mode <? 0 then 0 else mode in
  let mode := if mode >? 3 then 3 else mode in
  let b :=
    match mode with
    | 0 => "0"
    | 1 => "3"
    | 2 => "A"
    | 3 => "B"
    | _ => ""
    end in
  sendCommand ("81 01 04 07 0" ++ b ++ " FF") false VResponse.

Definition toggleBacklight : Method := fun cam => (cam, Undefined).

Definition backlightOn : Method := sendCommand "81 01 04 33 02 FF" false VResponse.
Definition backlightOff : Method := sendCommand "81 01 04 33 03 FF" false VResponse.

Definition getPanSpeed (speed : Z) : string :=
  let speed := if speed <? 1 then 1 else speed in
  let speed := if speed >? 18 then 18 else speed in
  Js.padStart 2 "0" (Js.toString16 speed).

Definition getTiltSpeed (speed : Z) : string :=
  let speed := if speed <? 1 then 1 else speed in
  let speed := if speed >? 14 then 14 else speed in
  Js.padStart 2 "0" (Js.toString16 speed).

(** The members of the exported object [Direction]. *)
Inductive Direction :=
| Up | Down | Left | Right | UpLeft | UpRight | DownLeft | DownRight.

Definition directionCode (d : Direction) : Z :=
  match d with
  | Up => 0 | Down => 1 | Left => 2 | Right => 3
  | UpLeft => 4 | UpRight => 5 | DownLeft => 6 | DownRight => 7
  end.

Definition move (direction ps ts : Z) : Method :=
  let panSpeed := getPanSpeed ps in
  let tiltSpeed := getTiltSpeed ts in
  let frame (axes : string) :=
    sendCommand ("81 01 06 01 " ++ panSpeed ++ " " ++ tiltSpeed ++ " " ++ axes ++ " FF")
      false VResponse in
  match direction with
  | 0 => frame "03 01"
  | 1 => frame "03 02"
  | 2 => frame "01 03"
  | 3 => frame "02 03"
  | 4 => frame "01 01"
  | 5 => frame "02 01"
  | 6 => frame "01 02"
  | 7 => frame "02 02"
  | _ => fun cam => (cam, Undefined)
  end.

(** [Math.round] on a number that is already an integer; [Numeric.round]
    below is [Math.round] on every Number. The call to [console.log] in
    [moveTo] and in [positionInquiry] is left out. *)
Definition Math_round (x : Z) : Z := x.

Definition moveTo (ps ts pan tilt : Z) (relative : bool) : Method :=
  let panSpeed := getPanSpeed ps in
  let tiltSpeed := getTiltSpeed ts in
  let x := Math_round pan in
  let y := Math_round tilt in
  let panPos := toHex x in
  let tiltPos := toHex y in
  let rel := if relative then "03" else "02" in
  let command :=
    "81 01 06 " ++ rel ++ " " ++ panSpeed ++ " " ++ tiltSpeed
      ++ " 0" ++ Js.at_ panPos 0 ++ " 0" ++ Js.at_ panPos 0
      ++ " 0" ++ Js.at_ panPos 2 ++ " 0" ++ Js.at_ panPos 3
      ++ " 0" ++ Js.at_ tiltPos 0 ++ " 0" ++ Js.at_ tiltPos 1
      ++ " 0" ++ Js.at_ tiltPos 2 ++ " 0" ++ Js.at_ tiltPos 3 ++ " FF" in
  sendCommand command false VResponse.

Definition stop : Method := sendCommand "81 01 06 01 00 00 03 03 FF" false VResponse.
Definition home : Method := sendCommand "81 01 06 04 FF" false VResponse.
Definition reset : Method := sendCommand "81 01 06 05 FF" false VResponse.

(** *** Inquiries and the response decoder

    Each [async] inquiry awaits [sendCommand(..., true)]; the function named
    [..._reply] is the rest of its body, run on the fulfilled value. *)

Definition powerInquiry_reply (res : CameraResponse) : Value :=
  let b := responseAt res 5 in
  match b with
  | Some "2"%char => VString "On"
  | Some "3"%char => VString "Off (standby)"
  | Some "4"%char => VString "Internal power circuit error"
  | _ => VString "Unknown"
  end.

Definition powerInquiry : Method :=
  sendCommand "81 09 04 00 FF" true powerInquiry_reply.

Definition zoomPosInquiry : Method := asyncNull.

Definition focusInquiry_reply (res : CameraResponse) : Value :=
  let b := responseAt res 5 in
  match b with
  | Some "2"%char => VString "Auto"
  | Some "3"%char => VString "Manual"
  | _ => VString "Unknown"
  end.

Definition focusInquiry : Method :=
  sendCommand "81 09 04 38 FF" true focusInquiry_reply.

Definition whiteBalanceInquiry_reply (res : CameraResponse) : Value :=
  let b := responseAt res 5 in
  match b with
  | Some "0"%char => VString "Auto"
  | Some "1"%char => VString "In Door"
  | Some "2"%char => VString "Out Door"
  | Some "3"%char => VString "One Push WB"
  | Some "5"%char => VString "Manual"
  | _ => VString "Unknown"
  end.

Definition whiteBalanceInquiry : Method :=
  sendCommand "81 09 04 35 FF" true whiteBalanceInquiry_reply.

Definition exposureInquiry_reply (res : CameraResponse) : Value :=
  let b := responseAt res 5 in
  match b with
  | Some "0"%char => VString "Full Auto"
  | Some "3"%char => VString "Manual"
  | Some "A"%char => VString "Shutter Priority"
  | Some "B"%char => VString "Iris Priority"
  | _ => VString "Unknown"
  end.

Definition exposureInquiry : Method :=
  sendCommand "81 09 04 39 FF" true exposureInquiry_reply.

Definition shutterPosInquiry : Method := asyncNull.
Definition irisPosInquiry : Method := asyncNull.

Definition backlightInquiry_reply (res : CameraResponse) : Value :=
  let b := responseAt res 5 in
  match b with
  | Some "2"%char => VString "On"
  | Some "3"%char => VString "Off"
  | _ => VString "Unknown"
  end.

Definition backlightInquiry : Method :=
  sendCommand "81 09 04 33 FF" true backlightInquiry_reply.

Definition versionInquiry_reply (res : CameraResponse) : Value :=
  VVersion (responseSlice res 4 8) (responseSlice res 8 12)
           (responseSlice res 12 16) (responseSlice res 16 18).

Definition versionInquiry : Method :=
  sendCommand "81 09 00 02 FF" true versionInquiry_reply.

Definition videoFormatInquiry_reply (res : CameraResponse) : Value :=
  let b := responseAt res 5 in
  match b with
  | Some "1"%char => VString "1920x1080p/30"
  | Some "2"%char => VString "1920x1080i/60"
  | Some "3"%char => VString "1280x720p/60"
  | Some "9"%char => VString "1920x1080p/25"
  | Some "A"%char => VString "1920x1080i/50"
  | Some "B"%char => VString "1280x720p/50"
  | Some "D"%char => VString ""
  | _ => VString "Unknown"
  end.

Definition videoFormatInquiry : Method :=
  sendCommand "81 09 06 23 FF" true videoFormatInquiry_reply.

Definition positionInquiry_reply (res : CameraResponse) : Value :=
  let pan := responseSlice res 4 12 in
  let tilt := responseSlice res 12 20 in
  let pan := extractHex pan in
  let tilt := extractHex tilt in
  VPosition (parseHex pan) (parseHex tilt).

Definition positionInquiry : Method :=
  sendCommand "81 09 06 12 FF" true positionInquiry_reply.

Definition colorFormatInquiry_reply (res : CameraResponse) : Value :=
  let b := responseAt res 5 in
  match b with
  | Some "0"%char => VString "RGB"
  | Some "1"%char => VString "YPbPr"
  | _ => VString "Unknown"
  end.

Definition colorFormatInquiry : Method :=
  sendCommand "81 09 7E 01 03 FF" true colorFormatInquiry_reply.

(** ** The event loop around the object *)

(** The public methods, as a caller names them. An argument left out of a
    call takes the default of the method's signature. *)
Inductive Operation :=
| CancelCommand (socket : option Z)
| PowerOn | PowerOff
| ExposureMode (mode : Z)
| ToggleBacklight | BacklightOn | BacklightOff
| Move (direction : Z) (ps ts : option Z)
| MoveTo (ps ts pan tilt : Z) (relative : option bool)
| Stop | Home | Reset
| PowerInquiry | ZoomPosInquiry | FocusInquiry | WhiteBalanceInquiry
| ExposureInquiry | ShutterPosInquiry | IrisPosInquiry | BacklightInquiry
| VersionInquiry | VideoFormatInquiry | PositionInquiry | ColorFormatInquiry.

Definition orDefault {A} (d : A) (o : option A) : A :=
  match o with
  | Some a => a
  | None => d
  end.

Definition invoke (op : Operation) : Method :=
  match op with
  | CancelCommand socket => cancelCommand (orDefault 1 socket)
  | PowerOn => powerOn
  | PowerOff => powerOff
  | ExposureMode mode => exposureMode mode
  | ToggleBacklight => toggleBacklight
  | BacklightOn => backlightOn
  | BacklightOff => backlightOff
  | Move direction ps ts => move direction (orDefault 5 ps) (orDefault 3 ts)
  | MoveTo ps ts pan tilt relative =>
      moveTo ps ts pan tilt (orDefault false relative)
  | Stop => stop
  | Home => home
  | Reset => reset
  | PowerInquiry => powerInquiry
  | ZoomPosInquiry => zoomPosInquiry
  | FocusInquiry => focusInquiry
  | WhiteBalanceInquiry => whiteBalanceInquiry
  | ExposureInquiry => exposureInquiry
  | ShutterPosInquiry => shutterPosInquiry
  | IrisPosInquiry => irisPosInquiry
  | BacklightInquiry => backlightInquiry
  | VersionInquiry => versionInquiry
  | VideoFormatInquiry => videoFormatInquiry
  | PositionInquiry => positionInquiry
  | ColorFormatInquiry => colorFormatInquiry
  end.

Fixpoint takeOperation (id : nat) (ops : list PendingOperation)
    : option (PendingOperation * list PendingOperation) :=
  match ops with
  | [] => None
  | p :: rest =>
      if Nat.eqb (op_id p) id then Some (p, rest)
      else
        match takeOperation id rest with
        | Some (q, rest') => Some (q, p :: rest')
        | None => None
        end
  end.

(** The callback given to [serial.write] in [sendCommand], run by the
    transport for the write of promise [id] with [err] ([None] when the
    write succeeded): a failure rejects the promise; a successful inquiry
    arms [this.once('data', ...)]; a successful command fulfils the promise
    with [response = true]. *)
Definition writeCallback (id : nat) (err : option string) (cam : Huddlecam)
    : Huddlecam :=
  match takeOperation id (writeCallbacks cam) with
  | None => cam
  | Some (p, rest) =>
      match err with
      | Some e =>
          {| states := states cam;
             written := written cam;
             writeCallbacks := rest;
             dataListeners := dataListeners cam;
             settled :=
               (settled cam ++
                  [(op_id p,
                    Rejected {| command := op_command p;
                                response := RespError e |})])%list;
             nextPromise := nextPromise cam |}
      | None =>
          if op_inquiry p then
            {| states := states cam;
               written := written cam;
               writeCallbacks := rest;
               dataListeners := (dataListeners cam ++ [p])%list;
               settled := settled cam;
               nextPromise := nextPromise cam |}
          else
            {| states := states cam;
               written := written cam;
               writeCallbacks := rest;
               dataListeners := dataListeners cam;
               settled :=
                 (settled cam ++
                    [(op_id p,
                      Fulfilled
                        (op_then p {| command := op_command p;
                                      response := RespTrue |}))])%list;
               nextPromise := nextPromise cam |}
      end
  end.

(** The listener of an armed inquiry, run on the chunk [data]. *)
Definition replyOf (data : list byte) (p : PendingOperation) : nat * Outcome :=
  (op_id p,
   Fulfilled
     (op_then p {| command := op_command p;
                   response := RespHex (Buffer.toStringHex data) |})).

(** [this.emit('data', data)], forwarded from the serial port: every
    listener armed with [once] runs, in the order of registration, and is
    removed. *)
Definition emitData (data : list byte) (cam : Huddlecam) : Huddlecam := {|
  states := states cam;
  written := written cam;
  writeCallbacks := writeCallbacks cam;
  dataListeners := [];
  settled := (settled cam ++ map (replyOf data) (dataListeners cam))%list;
  nextPromise := nextPromise cam
|}.

Inductive Event :=
| Call (op : Operation)
| WriteDone (id : nat) (err : option string)
| Data (data : list byte).

Definition step (cam : Huddlecam) (e : Event) : Huddlecam :=
  match e with
  | Call op => fst (invoke op cam)
  | WriteDone id err => writeCallback id err cam
  | Data data => emitData data cam
  end.

Definition run (events : list Event) : Huddlecam :=
  fold_left step events constructor.

(** The states of the correlator, for one promise. *)
Definition awaitingTransportAck (id : nat) (cam : Huddlecam) : Prop :=
  In id (map op_id (writeCallbacks cam)).

Definition awaitingReply (id : nat) (cam : Huddlecam) : Prop :=
  In id (map op_id (dataListeners cam)).

Definition resolved (id : nat) (cam : Huddlecam) : Prop :=
  In id (map fst (settled cam)).

Definition outcome (id : nat) (cam : Huddlecam) : option Outcome :=
  match find (fun s => Nat.eqb (fst s) id) (settled cam) with
  | Some s => Some (snd s)
  | None => None
  end.

(** ** Vocabulary of the specification *)

(** Clamping to the nearest bound of [[lo, hi]]. *)
Definition clamp (lo hi x : Z) : Z := Z.max lo (Z.min hi x).

(** Two zero-padded hexadecimal digits. *)
Definition hex2 (n : Z) : string :=
  String (Js.hexChar (n / 16)) (String (Js.hexChar (n mod 16)) "").

(** The buffers a method call hands to [serial.write]. *)
Definition emitted (m : Method) (cam : Huddlecam) : list (list byte) :=
  skipn (List.length (written cam)) (written (fst (m cam))).

(** The coordinate codec under the names of the specification. [expand] is
    the layout [moveTo] gives the four digits of [tiltPos], one digit per
    byte behind a [0], with the blanks removed as [sendCommand] does. *)
Definition encodeCoordinate (value : Z) : string := toHex value.

Definition expand (digits : string) : string :=
  Js.stripSpaces
    ("0" ++ Js.at_ digits 0 ++ " 0" ++ Js.at_ digits 1
       ++ " 0" ++ Js.at_ digits 2 ++ " 0" ++ Js.at_ digits 3).

Definition decodeCoordinate (wire : string) : option Z :=
  parseHex (extractHex wire).

(** The status of a reply: the low nibble of its third byte. *)
Definition statusNibble (reply : list byte) : option Z :=
  match nth_error reply 2 with
  | Some b => Some (Buffer.valueOf b mod 16)
  | None => None
  end.

(** No two inquiries are awaiting a reply at the same time. *)
Definition serialized (cam : Huddlecam) : Prop :=
  (List.length (dataListeners cam) <= 1)%nat.

(** The promises the correlator knows, by stage. *)
Definition promises (cam : Huddlecam) : list nat :=
  (map op_id (writeCallbacks cam) ++ map op_id (dataListeners cam)
     ++ map fst (settled cam))%list.

(** The table of the power inquiry, by status. *)
Definition powerState (status : option Z) : string :=
  match status with
  | Some 2 => "On"
  | Some 3 => "Off (standby)"
  | Some 4 => "Internal power circuit error"
  | _ => "Unknown"
  end.

(** Checking a decidable property on every integer of an interval. *)
Fixpoint checkFrom (p : Z -> bool) (lo : Z) (n : nat) : bool :=
  match n with
  | O => true
  | S k => p lo && checkFrom p (lo + 1) k
  end.

(** The round trip of one coordinate, as a test. *)
Definition roundTrips (v : Z) : bool :=
  let digits := encodeCoordinate v in
  let wire := expand digits in
  match decodeCoordinate wire,
        decodeCoordinate (Buffer.toStringHex (Buffer.fromHex wire)),
        Js.parseInt16 digits
  with
  | Some a, Some b, Some u =>
      (a =? v) && (b =? v)
      && String.eqb (extractHex wire) digits
      && Nat.eqb (String.length digits) 4
      && (u =? (if v <? 0 then v + 0x10000 else v))
  | _, _, _ => false
  end.

(** The invariant of the correlator: a promise is in one stage only, and
    the counter is above every promise handed out. *)
Definition wellFormed (cam : Huddlecam) : Prop :=
  NoDup (promises cam)
  /\ Forall (fun id => (id < nextPromise cam)%nat) (promises cam).

(** Two inquiries submitted back to back, both writes acknowledged. *)
Definition twoInquiries : list Event :=
  [Call PowerInquiry; Call VersionInquiry; WriteDone 0 None; WriteDone 1 None].

(** A reply of the camera to a power inquiry: power is on. *)
Definition powerIsOn : list byte := [x90; x50; x02; xff].

(** A power inquiry answered, and a backlight command acknowledged. *)
Definition powerAnswered : list Event :=
  [Call PowerInquiry; WriteDone 0 None; Data powerIsOn].

Definition backlightSwitched : list Event :=
  [Call BacklightOn; WriteDone 0 None].

(** The hexadecimal digit of weight [16^i] in the 16-bit two's-complement
    form of [v]. *)
Definition nibble (i : Z) (v : Z) : Z :=
  ((if v <? 0 then v + 0x10000 else v) / 16 ^ i) mod 16.

Definition nibbleText (v : Z) : string :=
  String (Js.hexChar (nibble 3 v))
    (String (Js.hexChar (nibble 2 v))
       (String (Js.hexChar (nibble 1 v))
          (String (Js.hexChar (nibble 0 v)) ""))).

Definition printsNibbles (v : Z) : bool := String.eqb (toHex v) (nibbleText v).

(** The operations whose frame is checked for its terminator below: all
    but [cancelCommand], and [moveTo] for 16-bit coordinates only. *)
Definition terminatedOperation (op : Operation) : Prop :=
  match op with
  | CancelCommand _ => False
  | MoveTo _ _ pan tilt _ =>
      -32768 <= pan <= 32767 /\ -32768 <= tilt <= 32767
  | _ => True
  end.

(** ** The methods on every Number

    The methods above take their numeric arguments as integers. A
    JavaScript Number is a double: a dyadic rational, [NaN] or an
    infinity. This module gives the same methods on such numbers, with the
    comparisons, [toString(16)] and [Math.round] of the language; on
    integers they are the methods above (lemmas [getPanSpeed_ofZ],
    [toHex_ofZ], [cancelCommand_ofZ], [moveTo_ofZ] and [move_sendable]
    below). *)

Module Numeric.

(** [Finite m s] is the number [m / 2^s]. *)
Inductive Number :=
| Finite (mantissa : Z) (scale : N)
| NaN
| Infinity
| NegInfinity.

Definition unit (scale : N) : Z := 2 ^ Z.of_N scale.

Definition ofZ (z : Z) : Number := Finite z 0.

(** [x < k], [x > k] and [x === k] for an integer literal [k]; every
    comparison with [NaN] is false. *)
Definition lt (x : Number) (k : Z) : bool :=
  match x with
  | Finite m s => m <? k * unit s
  | NaN => false
  | Infinity => false
  | NegInfinity => true
  end.

Definition gt (x : Number) (k : Z) : bool :=
  match x with
  | Finite m s => m >? k * unit s
  | NaN => false
  | Infinity => true
  | NegInfinity => false
  end.

Definition equals (x : Number) (k : Z) : bool :=
  match x with
  | Finite m s => m =? k * unit s
  | _ => false
  end.

(** [x + k] for an integer literal [k]. *)
Definition plus (x : Number) (k : Z) : Number :=
  match x with
  | Finite m s => Finite (m + k * unit s) s
  | other => other
  end.

(** [Math.round(x)]: the integer nearest to [x], a half going up. *)
Definition round (x : Number) : Number :=
  match x with
  | Finite m s => Finite ((2 * m + unit s) / (2 * unit s)) 0
  | other => other
  end.

(** The hexadecimal digits of the fraction [r / unit], as far as they go. *)
Fixpoint fractionDigits (fuel : nat) (r unit : Z) : string :=
  match fuel with
  | O => ""
  | S f =>
      if r =? 0 then ""
      else String (Js.hexChar (r * 16 / unit))
                  (fractionDigits f (r * 16 mod unit) unit)
  end.

(** [x.toString(16)]: the digits of the whole part, then a point and the
    digits of the fraction when there is one, behind a minus sign for a
    negative number. *)
Definition toString16 (x : Number) : string :=
  match x with
  | NaN => "NaN"
  | Infinity => "Infinity"
  | NegInfinity => "-Infinity"
  | Finite m s =>
      let magnitude := Z.abs m in
      let whole := magnitude / unit s in
      let rest := magnitude mod unit s in
      let digits :=
        Js.hexDigits (Js.digitCount whole) whole
          ++ (if rest =? 0 then ""
              else String "." (fractionDigits (S (N.to_nat s)) rest (unit s))) in
      if m <? 0 then String "-" digits else digits
  end.

Definition cancelCommand (socket : Number) : Method :=
  let socket := if lt socket 1 then ofZ 1 else socket in
  let socket := if gt socket 2 then ofZ 2 else socket in
  let socketHex := Js.padStart 2 "0" (toString16 socket) in
  sendCommand ("8x 2" ++ socketHex ++ " FF") false VResponse.

Definition exposureMode (mode : Number) : Method :=
  let mode := if lt mode 0 then ofZ 0 else mode in
  let mode := if gt mode 3 then ofZ 3 else mode in
  let b :=
    if equals mode 0 then "0"
    else if equals mode 1 then "3"
    else if equals mode 2 then "A"
    else if equals mode 3 then "B"
    else "" in
  sendCommand ("81 01 04 07 0" ++ b ++ " FF") false VResponse.

Definition getPanSpeed (speed : Number) : string :=
  let speed := if lt speed 1 then ofZ 1 else speed in
  let speed := if gt speed 18 then ofZ 18 else speed in
  Js.padStart 2 "0" (toString16 speed).

Definition getTiltSpeed (speed : Number) : string :=
  let speed := if lt speed 1 then ofZ 1 else speed in
  let speed := if gt speed 14 then ofZ 14 else speed in
  Js.padStart 2 "0" (toString16 speed).

Definition move (direction ps ts : Number) : Method :=
  let panSpeed := getPanSpeed ps in
  let tiltSpeed := getTiltSpeed ts in
  let frame (axes : string) :=
    sendCommand ("81 01 06 01 " ++ panSpeed ++ " " ++ tiltSpeed ++ " " ++ axes ++ " FF")
      false VResponse in
  if equals direction 0 then frame "03 01"
  else if equals direction 1 then frame "03 02"
  else if equals direction 2 then frame "01 03"
  else if equals direction 3 then frame "02 03"
  else if equals direction 4 then frame "01 01"
  else if equals direction 5 then frame "02 01"
  else if equals direction 6 then frame "01 02"
  else if equals direction 7 then frame "02 02"
  else fun cam => (cam, Undefined).

Definition toHex (num : Number) : string :=
  let num := if lt num 0 then plus num 0x10000 else num in
  Js.padStart 4 "0" (toString16 num).

Definition moveTo (ps ts pan tilt : Number) (relative : bool) : Method :=
  let panSpeed := getPanSpeed ps in
  let tiltSpeed := getTiltSpeed ts in
  let x := round pan in
  let y := round tilt in
  let panPos := toHex x in
  let tiltPos := toHex y in
  let rel := if relative then "03" else "02" in
  let command :=
    "81 01 06 " ++ rel ++ " " ++ panSpeed ++ " " ++ tiltSpeed
      ++ " 0" ++ Js.at_ panPos 0 ++ " 0" ++ Js.at_ panPos 0
      ++ " 0" ++ Js.at_ panPos 2 ++ " 0" ++ Js.at_ panPos 3
      ++ " 0" ++ Js.at_ tiltPos 0 ++ " 0" ++ Js.at_ tiltPos 1
      ++ " 0" ++ Js.at_ tiltPos 2 ++ " 0" ++ Js.at_ tiltPos 3 ++ " FF" in
  sendCommand command false VResponse.

(** A number with no fraction, and its value. *)
Definition isWhole (x : Number) : bool :=
  match x with
  | Finite m s => m mod unit s =? 0
  | _ => false
  end.

(** A speed that is sent as a byte: below 1 or above the maximum [hi], and
    so replaced by a bound, or without a fraction. *)
Definition sendable (hi : Z) (speed : Number) : bool :=
  lt speed 1 || gt speed hi || isWhole speed.

(** The speed clamped to [[1, hi]], for a sendable speed. *)
Definition clamped (hi : Z) (speed : Number) : Z :=
  if lt speed 1 then 1
  else if gt speed hi then hi
  else match speed with
       | Finite m s => m / unit s
       | _ => 1
       end.

(** The speed as [getPanSpeed] and [getTiltSpeed] print it: replaced by 1
    when below 1, then by [hi] when above [hi]. *)
Definition clampTo (hi : Z) (speed : Number) : Number :=
  let speed := if lt speed 1 then ofZ 1 else speed in
  if gt speed hi then ofZ hi else speed.

(** An exposure mode that selects a mode byte: below 0 or above 3, and so
    replaced by a bound, or without a fraction; and the mode it selects. *)
Definition selectable (mode : Number) : bool :=
  lt mode 0 || gt mode 3 || isWhole mode.

Definition selected (mode : Number) : Z :=
  if lt mode 0 then 0
  else if gt mode 3 then 3
  else match mode with
       | Finite m s => m / unit s
       | _ => 0
       end.

(** The integer a direction is strictly equal to, if any (8 stands for
    none of 0 to 7). *)
Definition directionValue (direction : Number) : Z :=
  match direction with
  | Finite m s => if m mod unit s =? 0 then m / unit s else 8
  | _ => 8
  end.


End Numeric.

(** ** The page and the socket handlers

    The page keeps its two speeds in the globals [panSpeed] and
    [tiltSpeed]: the numbers 8 and 4 at first, then the [value] of a
    slider, which is text. The server hands them to the camera as they
    come. *)

(** A speed as it reaches [getPanSpeed] and [getTiltSpeed]: a number, or
    the decimal text of a natural number. *)
Inductive SpeedArgument :=
| SpeedNumber (n : Z)
| SpeedText (n : N).






(** The handler of the socket message [moveTo]: it passes seven arguments
    to the five parameters of [moveTo], so that [W] arrives as [relative]
    and is tested for being non-zero. *)
Definition onMoveTo (panSpeed tiltSpeed x y W H : Z) (relative : bool)
    : Method :=
  moveTo panSpeed tiltSpeed x y (negb (W =? 0)).

Module Page.

Inductive Arrow := ArrowUp | ArrowDown | ArrowLeft | ArrowRight.

(** [e.key]. *)
Inductive Key :=
| ArrowKey (a : Arrow)
| OtherKey.

(** The object [keys]. *)
Record Keys := {
  Up : bool;
  Down : bool;
  Left : bool;
  Right : bool
}.

(** The globals of the page. *)
Record Globals := {
  keys : Keys;
  panSpeed : SpeedArgument;
  tiltSpeed : SpeedArgument
}.

(** What the page emits on its socket. *)
Inductive Message :=
| MoveMessage (dir : Z) (panSpeed tiltSpeed : SpeedArgument)
| MoveStopMessage.

Definition initial : Globals := {|
  keys := {| Up := false; Down := false; Left := false; Right := false |};
  panSpeed := SpeedNumber 8;
  tiltSpeed := SpeedNumber 4
|}.

(** The [input] listener of a slider named [name] whose value is the
    decimal text of [value]. *)
Definition slide (name : string) (value : N) (g : Globals) : Globals :=
  if String.eqb name "panSpeed" then
    {| keys := keys g; panSpeed := SpeedText value; tiltSpeed := tiltSpeed g |}
  else if String.eqb name "tiltSpeed" then
    {| keys := keys g; panSpeed := panSpeed g; tiltSpeed := SpeedText value |}
  else g.

Definition held (a : Arrow) (k : Keys) : bool :=
  match a with
  | ArrowUp => Up k
  | ArrowDown => Down k
  | ArrowLeft => Left k
  | ArrowRight => Right k
  end.

Definition dirOf (a : Arrow) : Z :=
  match a with
  | ArrowUp => 0
  | ArrowDown => 1
  | ArrowLeft => 2
  | ArrowRight => 3
  end.

Definition setKey (a : Arrow) (v : bool) (k : Keys) : Keys :=
  match a with
  | ArrowUp => {| Up := v; Down := Down k; Left := Left k; Right := Right k |}
  | ArrowDown => {| Up := Up k; Down := v; Left := Left k; Right := Right k |}
  | ArrowLeft => {| Up := Up k; Down := Down k; Left := v; Right := Right k |}
  | ArrowRight => {| Up := Up k; Down := Down k; Left := Left k; Right := v |}
  end.

(** The [keydown] listener: an arrow that is not yet marked as pressed is
    marked and emits [move]; an arrow already marked, or another key, emits
    nothing. The button of the arrow is taken to be in the document. *)
Definition keydown (key : Key) (g : Globals) : Globals * list Message :=
  match key with
  | OtherKey => (g, [])
  | ArrowKey a =>
      let alreadyPressed := held a (keys g) in
      let g' := {| keys := setKey a true (keys g);
                   panSpeed := panSpeed g; tiltSpeed := tiltSpeed g |} in
      if negb alreadyPressed
      then (g', [MoveMessage (dirOf a) (panSpeed g) (tiltSpeed g)])
      else (g', [])
  end.

(** The [keyup] listener, for an arrow: the arrow is unmarked and
    [moveStop] is emitted. *)
Definition keyup (a : Arrow) (g : Globals) : Globals * list Message :=
  ({| keys := setKey a false (keys g);
      panSpeed := panSpeed g; tiltSpeed := tiltSpeed g |},
   [MoveStopMessage]).

Inductive Input :=
| KeyDown (key : Key)
| KeyUp (a : Arrow)
| Slide (name : string) (value : N).

Definition react (g : Globals) (i : Input) : Globals * list Message :=
  match i with
  | KeyDown key => keydown key g
  | KeyUp a => keyup a g
  | Slide name value => (slide name value g, [])
  end.

(** The globals after a sequence of inputs, and everything emitted. *)
Fixpoint play (inputs : list Input) (g : Globals) : Globals * list Message :=
  match inputs with
  | [] => (g, [])
  | i :: rest =>
      let '(g1, out1) := react g i in
      let '(g2, out2) := play rest g1 in
      (g2, (out1 ++ out2)%list)
  end.

Definition releases (a : Arrow) (i : Input) : bool :=
  match i, a with
  | KeyUp ArrowUp, ArrowUp => true
  | KeyUp ArrowDown, ArrowDown => true
  | KeyUp ArrowLeft, ArrowLeft => true
  | KeyUp ArrowRight, ArrowRight => true
  | _, _ => false
  end.

End Page.

(** ** Vocabulary of the further properties *)

(** What one event hands to the transport: the frame of the call, if the
    method sends one. *)
Definition frameOf (e : Event) : list (list byte) :=
  match e with
  | Call op => emitted (invoke op) constructor
  | _ => []
  end.

Definition isData (e : Event) : bool :=
  match e with
  | Data _ => true
  | _ => false
  end.

(** The low nibble of a byte. *)
Definition lowNibble (b : byte) : Z := Buffer.valueOf b mod 16.

(** The states an exposure inquiry and a video-format inquiry can report,
    by status. *)
Definition exposureState (status : option Z) : string :=
  match status with
  | Some 0 => "Full Auto"
  | Some 3 => "Manual"
  | _ => "Unknown"
  end.

Definition videoFormatState (status : option Z) : string :=
  match status with
  | Some 1 => "1920x1080p/30"
  | Some 2 => "1920x1080i/60"
  | Some 3 => "1280x720p/60"
  | Some 9 => "1920x1080p/25"
  | _ => "Unknown"
  end.

(** An unsigned 16-bit value read as two's complement. *)
Definition signed16 (u : Z) : Z := if u >=? 0x8000 then u - 0x10000 else u.

(** Hexadecimal digits, most significant first: their text, their value,
    and their signed reading ([None] when there is no digit). *)
Fixpoint hexText (ds : list Z) : string :=
  match ds with
  | [] => ""
  | d :: rest => String (Js.hexChar d) (hexText rest)
  end.

Definition hexValue (ds : list Z) : Z :=
  fold_left (fun acc d => acc * 16 + d) ds 0.

Definition readNibbles (ds : list Z) : option Z :=
  match ds with
  | [] => None
  | _ => Some (signed16 (hexValue ds))
  end.

(** The low nibbles of reply bytes 2 to 5 and 6 to 9, as far as the reply
    goes. *)
Definition panNibbles (reply : list byte) : list Z :=
  map lowNibble (firstn 4 (skipn 2 reply)).

Definition tiltNibbles (reply : list byte) : list Z :=
  map lowNibble (firstn 4 (skipn 6 reply)).

(** A reply as the text an inquiry decodes. *)
Definition replyText (cmd : string) (reply : list byte) : CameraResponse :=
  {| command := cmd; response := RespHex (Buffer.toStringHex reply) |}.

(** A hexadecimal digit, as a number. *)
Definition isNibble (d : Z) : Prop := 0 <= d < 16.

(** The two axis bytes of a direction, and the straight directions a
    diagonal is made of. *)
Definition axisBytes (d : Direction) : byte * byte :=
  match d with
  | Up => (x03, x01)
  | Down => (x03, x02)
  | Left => (x01, x03)
  | Right => (x02, x03)
  | UpLeft => (x01, x01)
  | UpRight => (x02, x01)
  | DownLeft => (x01, x02)
  | DownRight => (x02, x02)
  end.

Definition sideways (d : Direction) : option Direction :=
  match d with
  | UpLeft | DownLeft => Some Left
  | UpRight | DownRight => Some Right
  | _ => None
  end.

Definition upright (d : Direction) : option Direction :=
  match d with
  | UpLeft | UpRight => Some Up
  | DownLeft | DownRight => Some Down
  | _ => None
  end.

(** A frame between its address byte and its terminator, the terminator
    occurring nowhere else. *)
Definition delimited (frame : list byte) : Prop :=
  exists body, frame = x81 :: (body ++ [xff])%list /\ ~ In xff body.

(** The same, as a test on a given frame. *)
Definition delimitedb (frame : list byte) : bool :=
  match frame with
  | [] => false
  | first :: rest =>
      Byte.eqb first x81
      && match rev rest with
         | [] => false
         | final :: body =>
             Byte.eqb final xff
             && forallb (fun b => negb (Byte.eqb b xff)) body
         end
  end.

(** The states the focus, white-balance, backlight and colour-format
    inquiries report, by status. *)
Definition focusState (status : option Z) : string :=
  match status with
  | Some 2 => "Auto"
  | Some 3 => "Manual"
  | _ => "Unknown"
  end.

Definition whiteBalanceState (status : option Z) : string :=
  match status with
  | Some 0 => "Auto"
  | Some 1 => "In Door"
  | Some 2 => "Out Door"
  | Some 3 => "One Push WB"
  | Some 5 => "Manual"
  | _ => "Unknown"
  end.

Definition backlightState (status : option Z) : string :=
  match status with
  | Some 2 => "On"
  | Some 3 => "Off"
  | _ => "Unknown"
  end.

Definition colorFormatState (status : option Z) : string :=
  match status with
  | Some 0 => "RGB"
  | Some 1 => "YPbPr"
  | _ => "Unknown"
  end.

(** ** Basic facts *)

Lemma run_snoc (events : list Event) (e : Event) :
  run (events ++ [e]) = step (run events) e.
Proof. unfold run. rewrite fold_left_app. reflexivity. Qed.

Lemma skipn_length_app {A} (l r : list A) : skipn (List.length l) (l ++ r) = r.
Proof. induction l as [|a l IH]; simpl; auto. Qed.

Lemma emitted_sendCommand cmd inquiry andThen cam :
  emitted (sendCommand cmd inquiry andThen) cam
  = [Buffer.fromHex (Js.stripSpaces cmd)].
Proof. unfold emitted, sendCommand. simpl. apply skipn_length_app. Qed.

Lemma emitted_unchanged (m : Method) cam :
  written (fst (m cam)) = written cam -> emitted m cam = [].
Proof.
  unfold emitted. intros ->.
  induction (written cam) as [|a l IH]; simpl; auto.
Qed.

Lemma checkFrom_sound (p : Z -> bool) (n : nat) :
  forall lo, checkFrom p lo n = true ->
  forall v, lo <= v < lo + Z.of_nat n -> p v = true.
Proof.
  induction n as [|k IH]; intros lo Hc v Hv.
  - simpl in Hv. lia.
  - simpl in Hc. apply andb_prop in Hc. destruct Hc as [Hlo Hrest].
    destruct (Z.eq_dec v lo) as [->|Hne]; [assumption|].
    apply (IH (lo + 1) Hrest). lia.
Qed.

(** Closing a goal about an integer known to be one of finitely many
    values, by evaluation at each of them. *)
Ltac by_enumeration C :=
  repeat (destruct C as [-> | C]; [reflexivity|]); subst; reflexivity.

Lemma speed_cases (lo hi x : Z) :
  clamp lo hi x = (let x := if x <? lo then lo else x in
                   if x >? hi then hi else x) \/ hi < lo.
Proof.
  unfold clamp. cbv zeta.
  destruct (x <? lo) eqn:E1.
  - apply Z.ltb_lt in E1.
    destruct (lo >? hi) eqn:E2.
    + right. apply Z.gtb_lt in E2. lia.
    + left. rewrite Z.gtb_ltb in E2. apply Z.ltb_ge in E2. lia.
  - apply Z.ltb_ge in E1.
    destruct (x >? hi) eqn:E2.
    + apply Z.gtb_lt in E2. destruct (Z.lt_ge_cases hi lo); [right|left]; lia.
    + left. rewrite Z.gtb_ltb in E2. apply Z.ltb_ge in E2. lia.
Qed.

Lemma getPanSpeed_clamp ps : getPanSpeed ps = hex2 (clamp 1 18 ps).
Proof.
  unfold getPanSpeed.
  destruct (speed_cases 1 18 ps) as [H|H]; [|lia].
  cbv zeta in H. rewrite <- H.
  assert (Hr : 1 <= clamp 1 18 ps <= 18) by (unfold clamp; lia).
  remember (clamp 1 18 ps) as c eqn:Hc. clear Hc H.
  assert (Hcases : c = 1 \/ c = 2 \/ c = 3 \/ c = 4 \/ c = 5 \/ c = 6
                   \/ c = 7 \/ c = 8 \/ c = 9 \/ c = 10 \/ c = 11 \/ c = 12
                   \/ c = 13 \/ c = 14 \/ c = 15 \/ c = 16 \/ c = 17
                   \/ c = 18) by lia.
  by_enumeration Hcases.
Qed.

Lemma getTiltSpeed_clamp ts : getTiltSpeed ts = hex2 (clamp 1 14 ts).
Proof.
  unfold getTiltSpeed.
  destruct (speed_cases 1 14 ts) as [H|H]; [|lia].
  cbv zeta in H. rewrite <- H.
  assert (Hr : 1 <= clamp 1 14 ts <= 14) by (unfold clamp; lia).
  remember (clamp 1 14 ts) as c eqn:Hc. clear Hc H.
  assert (Hcases : c = 1 \/ c = 2 \/ c = 3 \/ c = 4 \/ c = 5 \/ c = 6
                   \/ c = 7 \/ c = 8 \/ c = 9 \/ c = 10 \/ c = 11 \/ c = 12
                   \/ c = 13 \/ c = 14) by lia.
  by_enumeration Hcases.
Qed.

(** ** Coordinate codec *)

Example toHex_left : toHex (-2224) = "f750".
Proof. reflexivity. Qed.

Example toHex_right : toHex 2216 = "08a8".
Proof. reflexivity. Qed.

Example parseHex_down : parseHex (extractHex "0f0e0700") = Some (-400).
Proof. reflexivity. Qed.

(** The replies quoted in [positionInquiry]. *)
Example positionInquiry_home :
  positionInquiry_reply
    {| command := "81 09 06 12 FF";
       response := RespHex (Buffer.toStringHex
                              [x90; x50; x00; x00; x00; x00;
                               x00; x00; x00; x00; xff]) |}
  = VPosition (Some 0) (Some 0).
Proof. reflexivity. Qed.

Example positionInquiry_left :
  positionInquiry_reply
    {| command := "81 09 06 12 FF";
       response := RespHex (Buffer.toStringHex
                              [x90; x50; x0f; x07; x05; x00;
                               x00; x00; x00; x00; xff]) |}
  = VPosition (Some (-2224)) (Some 0).
Proof. reflexivity. Qed.

Example positionInquiry_up :
  positionInquiry_reply
    {| command := "81 09 06 12 FF";
       response := RespHex (Buffer.toStringHex
                              [x90; x50; x00; x00; x00; x00;
                               x00; x04; x0b; x00; xff]) |}
  = VPosition (Some 0) (Some 1200).
Proof. reflexivity. Qed.

Example stop_frame (cam : Huddlecam) :
  emitted stop cam = [[x81; x01; x06; x01; x00; x00; x03; x03; xff]].
Proof. apply emitted_sendCommand. Qed.

Lemma extractHex_expand (a b c d : ascii) :
  Js.isSpace a = false -> Js.isSpace b = false ->
  Js.isSpace c = false -> Js.isSpace d = false ->
  extractHex (expand (String a (String b (String c (String d "")))))
  = String a (String b (String c (String d ""))).
Proof.
  intros Ha Hb Hc Hd. unfold expand, Js.at_. simpl.
  rewrite Ha, Hb, Hc, Hd. reflexivity.
Qed.

Lemma roundTrips_int16 :
  checkFrom roundTrips (-32768) (Z.to_nat 65536) = true.
Proof. vm_cast_no_check (eq_refl true). Qed.

(** C3. For every signed 16-bit [v], encoding with [#toHex], expanding one
    digit per byte and decoding with [#extractHex] and [#parseHex] gives [v]
    back, on the text and through the bytes of a buffer. The encoder
    produces the four digits of [v + 0x10000] when [v] is negative and of
    [v] otherwise, and the characters at odd indices of the expanded form
    are those four digits. *)
Theorem coordinate_round_trip (v : Z) :
  -32768 <= v <= 32767 ->
  decodeCoordinate (expand (encodeCoordinate v)) = Some v
  /\ decodeCoordinate
       (Buffer.toStringHex (Buffer.fromHex (expand (encodeCoordinate v))))
     = Some v
  /\ extractHex (expand (encodeCoordinate v)) = encodeCoordinate v
  /\ String.length (encodeCoordinate v) = 4%nat
  /\ Js.parseInt16 (encodeCoordinate v)
     = Some (if v <? 0 then v + 0x10000 else v).
Proof.
  intros Hv.
  assert (H : roundTrips v = true).
  { apply (checkFrom_sound roundTrips _ (-32768) roundTrips_int16).
    rewrite Z2Nat.id; lia. }
  unfold roundTrips in H. cbv zeta in H.
  destruct (decodeCoordinate (expand (encodeCoordinate v))) as [a|];
    [|discriminate].
  destruct (decodeCoordinate
              (Buffer.toStringHex
                 (Buffer.fromHex (expand (encodeCoordinate v))))) as [b|];
    [|discriminate].
  destruct (Js.parseInt16 (encodeCoordinate v)) as [u|]; [|discriminate].
  repeat (apply andb_prop in H; destruct H as [H ?]).
  repeat match goal with
         | E : (_ =? _) = true |- _ => apply Z.eqb_eq in E
         | E : String.eqb _ _ = true |- _ => apply String.eqb_eq in E
         | E : Nat.eqb _ _ = true |- _ => apply Nat.eqb_eq in E
         end.
  subst. auto.
Qed.

Lemma coordinate_round_trip_witness :
  decodeCoordinate (expand (encodeCoordinate (-2224))) = Some (-2224).
Proof. apply (coordinate_round_trip (-2224)). lia. Defined.

(** ** Response decoder *)

Lemma powerInquiry_reply_table (cmd : string) (reply : list byte) :
  powerInquiry_reply
    {| command := cmd; response := RespHex (Buffer.toStringHex reply) |}
  = VString (powerState (statusNibble reply)).
Proof.
  destruct reply as [|b0 [|b1 [|b2 rest]]]; try reflexivity.
  destruct b2; reflexivity.
Qed.

(** ** Frame encoder *)

Lemma clamp_cases (lo hi x : Z) :
  lo <= hi -> lo <= clamp lo hi x <= hi.
Proof. unfold clamp. lia. Qed.

Lemma speed_bytes (c1 c2 : Z) (rest : string) :
  1 <= c1 <= 18 -> 1 <= c2 <= 14 ->
  Buffer.fromHex (Js.stripSpaces (hex2 c1 ++ " " ++ hex2 c2 ++ rest))
  = Buffer.byteOf c1 :: Buffer.byteOf c2
      :: Buffer.fromHex (Js.stripSpaces rest).
Proof.
  intros H1 H2.
  assert (C1 : c1 = 1 \/ c1 = 2 \/ c1 = 3 \/ c1 = 4 \/ c1 = 5 \/ c1 = 6
               \/ c1 = 7 \/ c1 = 8 \/ c1 = 9 \/ c1 = 10 \/ c1 = 11
               \/ c1 = 12 \/ c1 = 13 \/ c1 = 14 \/ c1 = 15 \/ c1 = 16
               \/ c1 = 17 \/ c1 = 18) by lia.
  assert (C2 : c2 = 1 \/ c2 = 2 \/ c2 = 3 \/ c2 = 4 \/ c2 = 5 \/ c2 = 6
               \/ c2 = 7 \/ c2 = 8 \/ c2 = 9 \/ c2 = 10 \/ c2 = 11
               \/ c2 = 12 \/ c2 = 13 \/ c2 = 14) by lia.
  clear H1 H2.
  repeat (destruct C1 as [->|C1]);
    try subst c1;
    repeat (destruct C2 as [->|C2]);
    try subst c2; reflexivity.
Qed.

Lemma move_frame (axes : string) ps ts cam :
  emitted (sendCommand
             ("81 01 06 01 " ++ getPanSpeed ps ++ " " ++ getTiltSpeed ts
                ++ " " ++ axes ++ " FF") false VResponse) cam
  = [x81 :: x01 :: x06 :: x01
       :: Buffer.byteOf (clamp 1 18 ps) :: Buffer.byteOf (clamp 1 14 ts)
       :: Buffer.fromHex (Js.stripSpaces (" " ++ axes ++ " FF"))].
Proof.
  rewrite emitted_sendCommand, getPanSpeed_clamp, getTiltSpeed_clamp.
  set (tail := hex2 (clamp 1 18 ps) ++ _).
  change (Buffer.fromHex (Js.stripSpaces ("81 01 06 01 " ++ tail)))
    with (x81 :: x01 :: x06 :: x01 :: Buffer.fromHex (Js.stripSpaces tail)).
  subst tail.
  rewrite speed_bytes by (apply clamp_cases; lia).
  reflexivity.
Qed.

(** The frame of [move] in each direction, byte by byte. *)
Lemma move_frame_layout (d : Direction) ps ts cam :
  exists panAxis tiltAxis,
    emitted (move (directionCode d) ps ts) cam
    = [[x81; x01; x06; x01;
        Buffer.byteOf (clamp 1 18 ps); Buffer.byteOf (clamp 1 14 ts);
        panAxis; tiltAxis; xff]].
Proof.
  destruct d; do 2 eexists;
    (etransitivity; [apply move_frame|reflexivity]).
Qed.

Lemma moveTo_frame ps ts pan tilt relative cam :
  exists f,
    emitted (moveTo ps ts pan tilt relative) cam = [f]
    /\ nth_error f 4 = Some (Buffer.byteOf (clamp 1 18 ps))
    /\ nth_error f 5 = Some (Buffer.byteOf (clamp 1 14 ts)).
Proof.
  unfold moveTo. cbv zeta.
  rewrite emitted_sendCommand, getPanSpeed_clamp, getTiltSpeed_clamp.
  eexists. split; [reflexivity|].
  set (tail := hex2 (clamp 1 18 ps) ++ _).
  assert (E : exists k,
             Buffer.fromHex
               (Js.stripSpaces
                  ("81 01 06 " ++ (if relative then "03" else "02") ++ " "
                     ++ tail))
             = x81 :: x01 :: x06 :: k :: Buffer.fromHex (Js.stripSpaces tail)).
  { destruct relative; eexists; reflexivity. }
  destruct E as [k ->]. subst tail.
  rewrite speed_bytes by (apply clamp_cases; lia).
  split; reflexivity.
Qed.

Lemma exposure_mode_shape (mode : Z) (cam : Huddlecam) :
  exists b,
    (b = "0" \/ b = "3" \/ b = "A" \/ b = "B")
    /\ exposureMode mode cam
       = sendCommand ("81 01 04 07 0" ++ b ++ " FF") false VResponse cam.
Proof.
  unfold exposureMode.
  destruct (mode <? 0) eqn:E; [exists "0"; auto|].
  apply Z.ltb_ge in E.
  destruct (mode >? 3) eqn:E'; [exists "B"; auto 6|].
  rewrite Z.gtb_ltb in E'. apply Z.ltb_ge in E'.
  assert (C : mode = 0 \/ mode = 1 \/ mode = 2 \/ mode = 3) by lia.
  destruct C as [C|[C|[C|C]]]; subst mode;
    [exists "0" | exists "3" | exists "A" | exists "B"]; auto 6.
Qed.

(** C8. [exposureMode] sends what it sends for the mode clamped to [0,3]:
    the frame of mode [-1] is the frame of mode 0, whose mode byte is [00],
    and the frame of mode 99 is the frame of mode 3, whose mode byte is
    [0B]. *)
Theorem exposure_mode_is_clamped (mode : Z) (cam : Huddlecam) :
  exposureMode mode cam = exposureMode (clamp 0 3 mode) cam
  /\ exposureMode (-1) cam = exposureMode 0 cam
  /\ exposureMode 99 cam = exposureMode 3 cam
  /\ emitted (exposureMode (-1)) cam = [[x81; x01; x04; x07; x00; xff]]
  /\ emitted (exposureMode 0) cam = [[x81; x01; x04; x07; x00; xff]]
  /\ emitted (exposureMode 99) cam = [[x81; x01; x04; x07; x0b; xff]]
  /\ emitted (exposureMode 3) cam = [[x81; x01; x04; x07; x0b; xff]].
Proof.
  split.
  - assert (C : mode < 0 \/ mode = 0 \/ mode = 1 \/ mode = 2 \/ mode = 3
                \/ 3 < mode) by lia.
    destruct C as [C|[C|[C|[C|[C|C]]]]]; try (subst mode; reflexivity).
    + replace (clamp 0 3 mode) with 0 by (unfold clamp; lia).
      unfold exposureMode.
      destruct (mode <? 0) eqn:E; [reflexivity|].
      apply Z.ltb_ge in E. lia.
    + replace (clamp 0 3 mode) with 3 by (unfold clamp; lia).
      unfold exposureMode.
      destruct (mode <? 0) eqn:E; [apply Z.ltb_lt in E; lia|].
      destruct (mode >? 3) eqn:E'; [reflexivity|].
      rewrite Z.gtb_ltb in E'. apply Z.ltb_ge in E'. lia.
  - repeat split; try reflexivity;
      unfold exposureMode; simpl; apply emitted_sendCommand.
Qed.

Lemma cancel_socket_shape (socket : Z) (cam : Huddlecam) :
  cancelCommand socket cam = sendCommand "8x 201 FF" false VResponse cam
  \/ cancelCommand socket cam = sendCommand "8x 202 FF" false VResponse cam.
Proof.
  unfold cancelCommand.
  destruct (socket <? 1) eqn:E; [left; reflexivity|].
  apply Z.ltb_ge in E.
  destruct (socket >? 2) eqn:E'; [right; reflexivity|].
  rewrite Z.gtb_ltb in E'. apply Z.ltb_ge in E'.
  assert (C : socket = 1 \/ socket = 2) by lia.
  destruct C; subst socket; [left|right]; reflexivity.
Qed.

Lemma move_outside (direction ps ts : Z) (cam : Huddlecam) :
  direction < 0 \/ 7 < direction ->
  move direction ps ts cam = (cam, Undefined).
Proof.
  intros H. unfold move.
  destruct direction as [|p|p]; [lia| |reflexivity].
  destruct p as [[[p|p|]|[p|p|]|]|[[p|p|]|[p|p|]|]|]; try reflexivity; lia.
Qed.

Lemma move_inside (direction : Z) :
  0 <= direction <= 7 -> exists d, direction = directionCode d.
Proof.
  intros H.
  assert (C : direction = 0 \/ direction = 1 \/ direction = 2
              \/ direction = 3 \/ direction = 4 \/ direction = 5
              \/ direction = 6 \/ direction = 7) by lia.
  destruct C as [C|[C|[C|[C|[C|[C|[C|C]]]]]]]; subst direction;
    [exists Up | exists Down | exists Left | exists Right | exists UpLeft
    | exists UpRight | exists DownLeft | exists DownRight]; reflexivity.
Qed.

(** C10. [move] with a direction outside 0..7 leaves the camera object as
    it is, hands nothing to the transport and returns [undefined]; with a
    direction in 0..7 it hands exactly one frame to the transport and
    returns a promise. *)
Theorem move_direction_dispatch (direction ps ts : Z) (cam : Huddlecam) :
  (direction < 0 \/ 7 < direction ->
   move direction ps ts cam = (cam, Undefined)
   /\ emitted (move direction ps ts) cam = [])
  /\ (0 <= direction <= 7 ->
      exists f,
        emitted (move direction ps ts) cam = [f]
        /\ snd (move direction ps ts cam) = Promise (nextPromise cam)).
Proof.
  split.
  - intros H. split; [apply move_outside; assumption|].
    apply emitted_unchanged. rewrite move_outside by assumption. reflexivity.
  - intros H. destruct (move_inside direction H) as [d ->].
    destruct d; eexists; (split; [apply emitted_sendCommand | reflexivity]).
Qed.

Lemma move_direction_dispatch_witness :
  (move 8 5 3 constructor = (constructor, Undefined)
   /\ emitted (move 8 5 3) constructor = [])
  /\ exists f,
       emitted (move 0 5 3) constructor = [f]
       /\ snd (move 0 5 3 constructor) = Promise (nextPromise constructor).
Proof.
  split.
  - apply (move_direction_dispatch 8 5 3 constructor). lia.
  - apply (move_direction_dispatch 0 5 3 constructor). lia.
Defined.

(** ** Session and correlator *)

Lemma invoke_cases (op : Operation) (cam : Huddlecam) :
  invoke op cam = (cam, Undefined)
  \/ invoke op cam = asyncNull cam
  \/ exists cmd inquiry andThen,
       invoke op cam = sendCommand cmd inquiry andThen cam.
Proof.
  destruct op; simpl;
    try (left; reflexivity);
    try (right; left; reflexivity);
    try (right; right; do 3 eexists; reflexivity).
  destruct (Z_lt_ge_dec direction 0) as [Hlo|Hlo];
    [left; apply move_outside; lia|].
  destruct (Z_lt_ge_dec 7 direction) as [Hhi|Hhi];
    [left; apply move_outside; lia|].
  destruct (move_inside direction) as [d ->]; [lia|].
  right; right. destruct d; do 3 eexists; reflexivity.
Qed.

Lemma takeOperation_spec (id : nat) (ops : list PendingOperation) p rest :
  takeOperation id ops = Some (p, rest) ->
  op_id p = id /\ Permutation (p :: rest) ops.
Proof.
  revert p rest. induction ops as [|q ops IH]; intros p rest H; simpl in H.
  - discriminate.
  - destruct (Nat.eqb (op_id q) id) eqn:E.
    + inversion H; subst. apply Nat.eqb_eq in E. split; auto.
    + destruct (takeOperation id ops) as [[p' rest']|]; [|discriminate].
      inversion H; subst.
      destruct (IH p rest' eq_refl) as [Hid Hperm].
      split; [assumption|].
      apply perm_trans with (q :: p :: rest'); [apply perm_swap|].
      apply perm_skip. assumption.
Qed.

Lemma states_step (cam : Huddlecam) (e : Event) :
  states (step cam e) = states cam.
Proof.
  destruct e as [op|id err|data]; simpl.
  - destruct (invoke_cases op cam) as [H|[H|[cmd [inq [k H]]]]];
      rewrite H; reflexivity.
  - unfold writeCallback.
    destruct (takeOperation id (writeCallbacks cam)) as [[p rest]|];
      [|reflexivity].
    destruct err; [reflexivity|]. destruct (op_inquiry p); reflexivity.
  - reflexivity.
Qed.

Lemma states_fold (events : list Event) :
  forall cam, states (fold_left step events cam) = states cam.
Proof.
  induction events as [|e events IH]; intros cam; simpl.
  - reflexivity.
  - rewrite IH. apply states_step.
Qed.

Lemma map_fst_replyOf data (ops : list PendingOperation) :
  map fst (map (replyOf data) ops) = map op_id ops.
Proof. rewrite map_map. reflexivity. Qed.

Lemma promises_step (cam : Huddlecam) (e : Event) :
  (Permutation (promises (step cam e)) (promises cam)
   /\ nextPromise (step cam e) = nextPromise cam)
  \/ (Permutation (promises (step cam e)) (nextPromise cam :: promises cam)
      /\ nextPromise (step cam e) = S (nextPromise cam)).
Proof.
  destruct e as [op|id err|data]; simpl.
  - destruct (invoke_cases op cam) as [H|[H|[cmd [inq [k H]]]]]; rewrite H.
    + left. split; reflexivity.
    + right. split; [|reflexivity].
      unfold promises. simpl. rewrite map_app. simpl.
      rewrite !app_assoc. symmetry. apply Permutation_cons_append.
    + right. split; [|reflexivity].
      unfold promises. simpl. rewrite map_app. simpl.
      rewrite <- app_assoc. simpl. symmetry. apply Permutation_middle.
  - left. unfold writeCallback.
    destruct (takeOperation id (writeCallbacks cam)) as [[p rest]|] eqn:T;
      [|split; reflexivity].
    destruct (takeOperation_spec _ _ _ _ T) as [_ Hperm].
    assert (Hids : Permutation (op_id p :: map op_id rest ++
                                  map op_id (dataListeners cam) ++
                                  map fst (settled cam))
                               (promises cam)).
    { unfold promises. rewrite app_comm_cons.
      apply Permutation_app_tail.
      change (op_id p :: map op_id rest) with (map op_id (p :: rest)).
      apply Permutation_map. assumption. }
    destruct err as [e|]; [|destruct (op_inquiry p)];
      (split; [|reflexivity]);
      (eapply perm_trans; [|exact Hids]);
      unfold promises; simpl; rewrite ?map_app; simpl;
      symmetry.
    + rewrite !app_assoc. apply Permutation_cons_append.
    + rewrite <- (app_assoc (map op_id (dataListeners cam))). simpl.
      rewrite !app_assoc. apply Permutation_middle.
    + rewrite !app_assoc. apply Permutation_cons_append.
  - left. split; [|reflexivity].
    unfold promises. simpl. rewrite map_app, map_fst_replyOf.
    apply Permutation_app_head. apply Permutation_app_comm.
Qed.

Lemma wellFormed_step (cam : Huddlecam) (e : Event) :
  wellFormed cam -> wellFormed (step cam e).
Proof.
  intros [Hnd Hlt]. unfold wellFormed.
  destruct (promises_step cam e) as [[Hp Hn]|[Hp Hn]]; rewrite Hn.
  - split.
    + eapply Permutation_NoDup; [symmetry; exact Hp|assumption].
    + eapply Permutation_Forall; [symmetry; exact Hp|assumption].
  - assert (Hfresh : ~ In (nextPromise cam) (promises cam)).
    { intros Hin. rewrite Forall_forall in Hlt.
      specialize (Hlt _ Hin). lia. }
    split.
    + eapply Permutation_NoDup; [symmetry; exact Hp|].
      constructor; assumption.
    + eapply Permutation_Forall; [symmetry; exact Hp|].
      constructor; [lia|].
      eapply Forall_impl; [|exact Hlt]. simpl. intros a Ha. lia.
Qed.

Lemma wellFormed_run (events : list Event) : wellFormed (run events).
Proof.
  induction events as [|e events IH] using rev_ind.
  - split; [constructor|constructor].
  - rewrite run_snoc. apply wellFormed_step. assumption.
Qed.

Lemma armed_by_own_write (cam : Huddlecam) (e : Event) (id : nat) :
  awaitingReply id (step cam e) ->
  awaitingReply id cam
  \/ (e = WriteDone id None /\ awaitingTransportAck id cam).
Proof.
  unfold awaitingReply, awaitingTransportAck.
  destruct e as [op|id' err|data]; simpl.
  - destruct (invoke_cases op cam) as [H|[H|[cmd [inq [k H]]]]];
      rewrite H; simpl; auto.
  - unfold writeCallback.
    destruct (takeOperation id' (writeCallbacks cam)) as [[p rest]|] eqn:T;
      [|auto].
    destruct (takeOperation_spec _ _ _ _ T) as [Hid Hperm].
    destruct err as [e|]; [simpl; auto|].
    destruct (op_inquiry p); simpl; [|auto].
    rewrite map_app, in_app_iff. simpl.
    intros [H|[H|[]]]; [auto|]. right.
    rewrite <- H, Hid. split; [reflexivity|].
    rewrite <- Hid. apply in_map.
    eapply Permutation_in; [exact Hperm|]. left; reflexivity.
  - intros [].
Qed.

Lemma takeOperation_fresh (id : nat) (ops rest : list PendingOperation) p :
  op_id p = id ->
  ~ In id (map op_id ops) ->
  takeOperation id (ops ++ p :: rest) = Some (p, (ops ++ rest)%list).
Proof.
  intros Hp. induction ops as [|q ops IH]; intros Hfresh; simpl.
  - rewrite Hp, Nat.eqb_refl. reflexivity.
  - simpl in Hfresh.
    destruct (Nat.eqb (op_id q) id) eqn:E.
    + apply Nat.eqb_eq in E. tauto.
    + rewrite IH by tauto. reflexivity.
Qed.

Lemma find_skip (id : nat) (l r : list (nat * Outcome)) :
  ~ In id (map fst l) ->
  find (fun s => Nat.eqb (fst s) id) (l ++ r)
  = find (fun s => Nat.eqb (fst s) id) r.
Proof.
  induction l as [|s l IH]; intros Hfresh; simpl.
  - reflexivity.
  - simpl in Hfresh.
    destruct (Nat.eqb (fst s) id) eqn:E.
    + apply Nat.eqb_eq in E. tauto.
    + apply IH. tauto.
Qed.

Lemma fresh_promise (cam : Huddlecam) (id : nat) :
  wellFormed cam -> (nextPromise cam <= id)%nat ->
  ~ In id (map op_id (writeCallbacks cam))
  /\ ~ In id (map op_id (dataListeners cam))
  /\ ~ In id (map fst (settled cam)).
Proof.
  intros [_ Hlt] Hid. rewrite Forall_forall in Hlt.
  unfold promises in Hlt.
  repeat split; intros Hin;
    assert (Hb : (id < nextPromise cam)%nat)
      by (apply Hlt; rewrite !in_app_iff; auto);
    lia.
Qed.

(** An inquiry submitted in any reachable state, with its write
    acknowledged, is fulfilled by the next chunk of data with the decoding
    of that chunk. *)
Lemma inquiry_resolves (events : list Event) (op : Operation) cmd k data :
  (forall cam, invoke op cam = sendCommand cmd true k cam) ->
  outcome (nextPromise (run events))
    (run (events ++ [Call op; WriteDone (nextPromise (run events)) None;
                     Data data]))
  = Some (Fulfilled
            (k {| command := cmd;
                  response := RespHex (Buffer.toStringHex data) |})).
Proof.
  intros Hop.
  assert (Hwf : wellFormed (run events)) by apply wellFormed_run.
  unfold run at 2. rewrite fold_left_app. fold (run events).
  remember (run events) as cam eqn:Hcam. clear Hcam events.
  destruct (fresh_promise cam _ Hwf (le_n _)) as [Hw [Hl Hs]].
  simpl. rewrite Hop. unfold sendCommand. simpl.
  set (p := {| op_id := nextPromise cam; op_command := cmd;
               op_inquiry := true; op_then := k |}).
  unfold writeCallback. simpl.
  rewrite (takeOperation_fresh (nextPromise cam) (writeCallbacks cam) [] p
             eq_refl Hw).
  simpl. unfold outcome. simpl.
  rewrite map_app. simpl.
  rewrite find_skip by assumption.
  rewrite find_skip by (rewrite map_fst_replyOf; assumption).
  simpl. rewrite Nat.eqb_refl. reflexivity.
Qed.

(** C6. In every reachable state, a power inquiry whose write succeeded is
    fulfilled by the next reply with the text selected by the low nibble of
    the third reply byte: 2 gives "On", 3 "Off (standby)", 4 "Internal
    power circuit error", and any other nibble, or a reply with no third
    byte, gives "Unknown"; the promise is fulfilled in every case, never
    rejected. *)
Theorem power_inquiry_decoding (events : list Event) (reply : list byte) :
  outcome (nextPromise (run events))
    (run (events ++ [Call PowerInquiry;
                     WriteDone (nextPromise (run events)) None; Data reply]))
  = Some (Fulfilled (VString (powerState (statusNibble reply))))
  /\ powerState (Some 2) = "On"
  /\ powerState (Some 3) = "Off (standby)"
  /\ powerState (Some 4) = "Internal power circuit error"
  /\ (forall s, s <> Some 2 -> s <> Some 3 -> s <> Some 4 ->
      powerState s = "Unknown").
Proof.
  split.
  - rewrite (inquiry_resolves events PowerInquiry
               "81 09 04 00 FF" powerInquiry_reply reply)
      by (intros cam; reflexivity).
    rewrite powerInquiry_reply_table. reflexivity.
  - repeat split.
    intros s H2 H3 H4. unfold powerState.
    destruct s as [z|]; [|reflexivity].
    destruct z as [|p|p]; try reflexivity.
    destruct p as [[p|p|]|[p|p|]|]; try reflexivity; try congruence;
      destruct p; try reflexivity; congruence.
Qed.

Lemma power_inquiry_decoding_witness :
  outcome 0 (run [Call PowerInquiry; WriteDone 0 None;
                  Data [x90; x50; x07; xff]])
  = Some (Fulfilled (VString "Unknown"))
  /\ powerState (Some 7) = "Unknown".
Proof.
  split.
  - apply (power_inquiry_decoding [] [x90; x50; x07; xff]).
  - apply (power_inquiry_decoding [] [x90; x50; x07; xff]); discriminate.
Defined.

(** The state reached from [cam] when two inquiries are submitted back to
    back and both writes are then acknowledged. *)
Lemma two_inquiries_armed (cam : Huddlecam) cmdA kA cmdB kB :
  wellFormed cam ->
  let a := nextPromise cam in
  let pA := {| op_id := a; op_command := cmdA;
               op_inquiry := true; op_then := kA |} in
  let pB := {| op_id := S a; op_command := cmdB;
               op_inquiry := true; op_then := kB |} in
  writeCallback (S a) None
    (writeCallback a None
       (fst (sendCommand cmdB true kB (fst (sendCommand cmdA true kA cam)))))
  = {| states := states cam;
       written := ((written cam ++ [Buffer.fromHex (Js.stripSpaces cmdA)])
                     ++ [Buffer.fromHex (Js.stripSpaces cmdB)])%list;
       writeCallbacks := ((writeCallbacks cam ++ []) ++ [])%list;
       dataListeners := ((dataListeners cam ++ [pA]) ++ [pB])%list;
       settled := settled cam;
       nextPromise := S (S a) |}.
Proof.
  intros Hwf a pA pB.
  destruct (fresh_promise cam a Hwf (le_n _)) as [Ha _].
  destruct (fresh_promise cam (S a) Hwf (Nat.le_succ_diag_r _)) as [Hb _].
  unfold sendCommand. simpl. fold a. fold pA. fold pB.
  unfold writeCallback at 2. simpl.
  rewrite <- app_assoc. simpl.
  rewrite (takeOperation_fresh a (writeCallbacks cam) [pB] pA eq_refl Ha).
  simpl.
  unfold writeCallback. simpl.
  rewrite (takeOperation_fresh (S a) (writeCallbacks cam) [] pB eq_refl Hb).
  simpl. rewrite !app_nil_r. reflexivity.
Qed.

(** C1, as the class behaves. The engine does not serialize submissions:
    from any reachable state, two inquiries submitted back to back are both
    written to the transport, in submission order, and once their writes
    are acknowledged both are awaiting a reply, neither being resolved; the
    next inbound frame then fulfils both promises, each with its own
    decoding of that one frame. In every reachable state a promise is in
    one stage only (write pending, awaiting a reply, or settled). *)
Theorem back_to_back_inquiries (events : list Event) (opA opB : Operation)
    cmdA kA cmdB kB (data : list byte) :
  (forall cam, invoke opA cam = sendCommand cmdA true kA cam) ->
  (forall cam, invoke opB cam = sendCommand cmdB true kB cam) ->
  let cam := run events in
  let a := nextPromise cam in
  let b := S a in
  let armed :=
    run (events ++ [Call opA; Call opB; WriteDone a None; WriteDone b None]) in
  let reply cmd :=
    {| command := cmd; response := RespHex (Buffer.toStringHex data) |} in
  wellFormed cam /\ wellFormed armed
  /\ written armed
     = (written cam ++ [Buffer.fromHex (Js.stripSpaces cmdA);
                        Buffer.fromHex (Js.stripSpaces cmdB)])%list
  /\ awaitingReply a armed /\ awaitingReply b armed
  /\ ~ resolved a armed /\ ~ resolved b armed
  /\ dataListeners (step armed (Data data)) = []
  /\ outcome a (step armed (Data data)) = Some (Fulfilled (kA (reply cmdA)))
  /\ outcome b (step armed (Data data)) = Some (Fulfilled (kB (reply cmdB))).
Proof.
  intros HA HB cam a b armed reply.
  assert (Hwf : wellFormed cam) by apply wellFormed_run.
  assert (Hwf' : wellFormed armed) by apply wellFormed_run.
  destruct (fresh_promise cam a Hwf (le_n _)) as [_ [Hal Has]].
  destruct (fresh_promise cam b Hwf (Nat.le_succ_diag_r _)) as [_ [Hbl Hbs]].
  assert (E : armed
              = writeCallback b None
                  (writeCallback a None
                     (fst (sendCommand cmdB true kB
                             (fst (sendCommand cmdA true kA cam)))))).
  { unfold armed, run. rewrite fold_left_app. simpl.
    fold (run events). fold cam. rewrite HA, HB. reflexivity. }
  unfold b, a in E. rewrite two_inquiries_armed in E by assumption.
  fold a in E.
  split; [assumption|]. split; [assumption|].
  rewrite E. unfold awaitingReply, resolved, outcome. simpl.
  split; [rewrite <- app_assoc; reflexivity|].
  split; [rewrite !map_app, !in_app_iff; simpl; auto|].
  split; [rewrite !map_app, !in_app_iff; simpl; auto|].
  split; [assumption|]. split; [assumption|].
  split; [reflexivity|].
  rewrite <- (app_assoc (dataListeners cam)). simpl.
  rewrite map_app. simpl.
  split.
  - rewrite find_skip by assumption.
    rewrite find_skip by (rewrite map_fst_replyOf; assumption).
    simpl. rewrite Nat.eqb_refl. reflexivity.
  - rewrite find_skip by assumption.
    rewrite find_skip by (rewrite map_fst_replyOf; assumption).
    simpl. unfold b.
    destruct (Nat.eqb a (S a)) eqn:E'; [apply Nat.eqb_eq in E'; lia|].
    rewrite Nat.eqb_refl. reflexivity.
Qed.

Lemma back_to_back_inquiries_witness :
  outcome 1 (step (run twoInquiries) (Data powerIsOn))
  = Some (Fulfilled (VVersion "02ff" "" "" "")).
Proof.
  apply (back_to_back_inquiries [] PowerInquiry VersionInquiry
           "81 09 04 00 FF" powerInquiry_reply
           "81 09 00 02 FF" versionInquiry_reply powerIsOn);
    intros cam; reflexivity.
Defined.

(** C1, as the specification states it, fails: after two inquiries
    submitted back to back, both are awaiting a reply while the first is
    not resolved, and the first reply frame (a power reply) fulfils the
    second promise, a version inquiry, as well. *)
Lemma second_inquiry_takes_first_reply :
  ~ serialized (run twoInquiries)
  /\ awaitingReply 1 (run twoInquiries)
  /\ ~ resolved 0 (run twoInquiries)
  /\ settled (step (run twoInquiries) (Data powerIsOn))
     = [(0%nat, Fulfilled (VString "On"));
        (1%nat, Fulfilled (VVersion "02ff" "" "" ""))].
Proof.
  unfold serialized, awaitingReply, resolved. simpl.
  repeat split; try lia; auto.
Qed.

(** C5, as the class behaves. No event changes a field of the cache: after
    every sequence of method calls, write acknowledgements, write failures
    and replies, every field holds the value the constructor gave it. In
    particular a failed operation leaves the cache as it was. *)
Theorem cache_is_never_written (events : list Event) :
  states (run events) = states constructor
  /\ (forall cam e, states (step cam e) = states cam)
  /\ (forall cam op, states (fst (invoke op cam)) = states cam)
  /\ (forall cam id err, states (writeCallback id (Some err) cam) = states cam).
Proof.
  split; [apply states_fold|].
  split; [apply states_step|].
  split.
  - intros cam op. apply (states_step cam (Call op)).
  - intros cam id err. apply (states_step cam (WriteDone id (Some err))).
Qed.

(** C5, as the specification states it, fails: a power inquiry fulfilled
    with "On" leaves the cached power at "Unknown", and an acknowledged
    backlight-on command leaves the cached backlight at [false]. *)
Lemma cache_misses_successful_operations :
  outcome 0 (run powerAnswered) = Some (Fulfilled (VString "On"))
  /\ power (states (run powerAnswered)) = "Unknown"
  /\ power (states (run powerAnswered)) <> "On"
  /\ outcome 0 (run backlightSwitched)
     = Some (Fulfilled (VResponse {| command := "81 01 04 33 02 FF";
                                     response := RespTrue |}))
  /\ backlight (states (run backlightSwitched)) = false.
Proof. repeat split; try reflexivity. discriminate. Qed.

(** ** Where the encoder departs from its frame layout *)

(** C2, at pan 256. The codec gives the digits [0100] for pan 256, whose
    expansion is the bytes [00 01 00 00]; the frame of [moveTo] carries
    [00 00 00 00] instead, the first digit standing where the second
    belongs, and is the frame of pan 0. The four tilt bytes are the four
    tilt digits in order. *)
Theorem moveTo_repeats_first_pan_digit :
  encodeCoordinate 256 = "0100"
  /\ Buffer.fromHex (expand (encodeCoordinate 256)) = [x00; x01; x00; x00]
  /\ emitted (moveTo 3 3 256 291 false) constructor
     = [[x81; x01; x06; x02; x03; x03;
         x00; x00; x00; x00; x00; x01; x02; x03; xff]]
  /\ Buffer.fromHex (expand (encodeCoordinate 291)) = [x00; x01; x02; x03]
  /\ emitted (moveTo 3 3 256 291 false) constructor
     = emitted (moveTo 3 3 0 291 false) constructor.
Proof. repeat split; reflexivity. Qed.

(** C4, at [cancelCommand]. For every socket the command text is
    [8x 201 FF] or [8x 202 FF]: seven characters once the blanks are
    removed, the second of which is not a hexadecimal digit, so that the
    buffer handed to the transport is empty and has no terminator. *)
Theorem cancelCommand_frame_is_empty (socket : Z) (cam : Huddlecam) :
  emitted (cancelCommand socket) cam = [[]]
  /\ exists cmd,
       cancelCommand socket cam = sendCommand cmd false VResponse cam
       /\ String.length (Js.stripSpaces cmd) = 7%nat
       /\ Nat.odd (String.length (Js.stripSpaces cmd)) = true
       /\ Js.charAt (Js.stripSpaces cmd) 1 = Some "x"%char
       /\ Js.unhex "x" = None
       /\ last (Buffer.fromHex (Js.stripSpaces cmd)) x00 <> xff.
Proof.
  destruct (cancel_socket_shape socket cam) as [E|E]; rewrite E;
    (split; [apply emitted_sendCommand|]);
    eexists; (split; [reflexivity|]);
    repeat split; discriminate.
Qed.

(** ** The frames of the other operations *)

Lemma printsNibbles_int16 :
  checkFrom printsNibbles (-32768) (Z.to_nat 65536) = true.
Proof. vm_cast_no_check (eq_refl true). Qed.

Lemma toHex_nibbles (v : Z) :
  -32768 <= v <= 32767 -> toHex v = nibbleText v.
Proof.
  intros Hv. apply String.eqb_eq.
  apply (checkFrom_sound printsNibbles _ (-32768) printsNibbles_int16).
  rewrite Z2Nat.id; lia.
Qed.

Lemma nibble_range (i v : Z) : 0 <= nibble i v < 16.
Proof. unfold nibble. apply Z.mod_pos_bound. lia. Qed.

Lemma digit_byte (d : Z) (rest : string) :
  0 <= d < 16 ->
  Buffer.fromHex
    (Js.stripSpaces (" 0" ++ String (Js.hexChar d) "" ++ rest))
  = Buffer.byteOf d :: Buffer.fromHex (Js.stripSpaces rest).
Proof.
  intros H.
  assert (C : d = 0 \/ d = 1 \/ d = 2 \/ d = 3 \/ d = 4 \/ d = 5 \/ d = 6
              \/ d = 7 \/ d = 8 \/ d = 9 \/ d = 10 \/ d = 11 \/ d = 12
              \/ d = 13 \/ d = 14 \/ d = 15) by lia.
  clear H. by_enumeration C.
Qed.

(** The frame of [moveTo] for 16-bit coordinates, byte by byte: the four
    pan bytes are the digits of weight 16^3, 16^3, 16^1 and 16^0 of pan,
    the four tilt bytes the digits of tilt in order. *)
Lemma moveTo_frame_layout ps ts pan tilt relative cam :
  -32768 <= pan <= 32767 -> -32768 <= tilt <= 32767 ->
  emitted (moveTo ps ts pan tilt relative) cam
  = [[x81; x01; x06; (if relative then x03 else x02);
      Buffer.byteOf (clamp 1 18 ps); Buffer.byteOf (clamp 1 14 ts);
      Buffer.byteOf (nibble 3 pan); Buffer.byteOf (nibble 3 pan);
      Buffer.byteOf (nibble 1 pan); Buffer.byteOf (nibble 0 pan);
      Buffer.byteOf (nibble 3 tilt); Buffer.byteOf (nibble 2 tilt);
      Buffer.byteOf (nibble 1 tilt); Buffer.byteOf (nibble 0 tilt); xff]].
Proof.
  intros Hpan Htilt. unfold moveTo, Math_round. cbv zeta.
  rewrite emitted_sendCommand, getPanSpeed_clamp, getTiltSpeed_clamp.
  rewrite (toHex_nibbles pan Hpan), (toHex_nibbles tilt Htilt).
  unfold nibbleText, Js.at_. cbn [String.get].
  set (tail := hex2 (clamp 1 18 ps) ++ _).
  assert (E : Buffer.fromHex
                (Js.stripSpaces
                   ("81 01 06 " ++ (if relative then "03" else "02") ++ " "
                      ++ tail))
              = x81 :: x01 :: x06 :: (if relative then x03 else x02)
                  :: Buffer.fromHex (Js.stripSpaces tail)).
  { destruct relative; reflexivity. }
  rewrite E. subst tail.
  rewrite speed_bytes by (apply clamp_cases; lia).
  rewrite !digit_byte by apply nibble_range.
  reflexivity.
Qed.

(** Every frame but that of [cancelCommand] has an even number of
    hexadecimal digits (it is the decoding of its whole text) and ends with
    the terminator. *)
Lemma frames_are_terminated (op : Operation) (cam : Huddlecam) (f : list byte) :
  terminatedOperation op ->
  In f (emitted (invoke op) cam) ->
  last f x00 = xff.
Proof.
  intros Hop Hin.
  destruct op; simpl in Hop, Hin; try contradiction;
    try (unfold emitted in Hin; simpl in Hin;
         rewrite skipn_length_app in Hin;
         destruct Hin as [<- | []]; reflexivity);
    try (rewrite emitted_unchanged in Hin by reflexivity; destruct Hin).
  - (* exposureMode *)
    destruct (exposure_mode_shape mode cam) as [b [Hb E]].
    unfold emitted in Hin. rewrite E in Hin. simpl in Hin.
    rewrite skipn_length_app in Hin. destruct Hin as [<- | []].
    destruct Hb as [-> | [-> | [-> | ->]]]; reflexivity.
  - (* move *)
    destruct (Z_lt_ge_dec direction 0) as [Hlo|Hlo];
      [rewrite emitted_unchanged in Hin
         by (rewrite move_outside by lia; reflexivity);
       destruct Hin|].
    destruct (Z_lt_ge_dec 7 direction) as [Hhi|Hhi];
      [rewrite emitted_unchanged in Hin
         by (rewrite move_outside by lia; reflexivity);
       destruct Hin|].
    destruct (move_inside direction) as [d ->]; [lia|].
    destruct (move_frame_layout d (orDefault 5 ps) (orDefault 3 ts) cam)
      as [a [b E]].
    rewrite E in Hin. destruct Hin as [<- | []]. reflexivity.
  - (* moveTo *)
    destruct Hop as [Hpan Htilt].
    rewrite moveTo_frame_layout in Hin by assumption.
    destruct Hin as [<- | []]. reflexivity.
Qed.

(** ** The correlator, beyond two inquiries *)

Lemma invoke_shape (op : Operation) :
  (forall cam, invoke op cam = (cam, Undefined))
  \/ (forall cam, invoke op cam = asyncNull cam)
  \/ exists cmd inquiry andThen,
       forall cam, invoke op cam = sendCommand cmd inquiry andThen cam.
Proof.
  destruct op; simpl;
    try (left; reflexivity);
    try (right; left; reflexivity);
    try (right; right; do 3 eexists; reflexivity).
  destruct (Z_lt_ge_dec direction 0) as [Hlo|Hlo];
    [left; intros; apply move_outside; lia|].
  destruct (Z_lt_ge_dec 7 direction) as [Hhi|Hhi];
    [left; intros; apply move_outside; lia|].
  destruct (move_inside direction) as [d ->]; [lia|].
  right; right. destruct d; do 3 eexists; reflexivity.
Qed.

Lemma written_step (cam : Huddlecam) (e : Event) :
  written (step cam e) = (written cam ++ frameOf e)%list.
Proof.
  destruct e as [op|id err|data]; simpl.
  - unfold emitted.
    destruct (invoke_shape op) as [H|[H|[cmd [inq [k H]]]]]; rewrite !H;
      simpl; rewrite ?app_nil_r; reflexivity.
  - rewrite app_nil_r. unfold writeCallback.
    destruct (takeOperation id (writeCallbacks cam)) as [[p rest]|];
      [|reflexivity].
    destruct err; [reflexivity|]. destruct (op_inquiry p); reflexivity.
  - rewrite app_nil_r. reflexivity.
Qed.

Ltac grows :=
  simpl; first [ eexists; reflexivity
               | exists []; symmetry; apply app_nil_r ].

Lemma settled_step (cam : Huddlecam) (e : Event) :
  exists more, settled (step cam e) = (settled cam ++ more)%list.
Proof.
  destruct e as [op|id err|data]; simpl.
  - destruct (invoke_shape op) as [H|[H|[cmd [inq [k H]]]]]; rewrite H; grows.
  - unfold writeCallback.
    destruct (takeOperation id (writeCallbacks cam)) as [[p rest]|]; [|grows].
    destruct err; [grows|]. destruct (op_inquiry p); grows.
  - grows.
Qed.

Lemma settled_fold (events : list Event) :
  forall cam, exists more,
    settled (fold_left step events cam) = (settled cam ++ more)%list.
Proof.
  induction events as [|e events IH]; intros cam; simpl.
  - exists []. rewrite app_nil_r. reflexivity.
  - destruct (IH (step cam e)) as [m1 H1].
    destruct (settled_step cam e) as [m0 H0].
    exists (m0 ++ m1)%list. rewrite H1, H0, app_assoc. reflexivity.
Qed.

Lemma find_prefix (id : nat) (l r : list (nat * Outcome)) s :
  find (fun s => Nat.eqb (fst s) id) l = Some s ->
  find (fun s => Nat.eqb (fst s) id) (l ++ r) = Some s.
Proof.
  induction l as [|x l IH]; simpl; [discriminate|].
  destruct (Nat.eqb (fst x) id); auto.
Qed.

Lemma outcome_prefix (id : nat) (cam cam' : Huddlecam) more o :
  settled cam' = (settled cam ++ more)%list ->
  outcome id cam = Some o -> outcome id cam' = Some o.
Proof.
  unfold outcome. intros -> H.
  destruct (find _ (settled cam)) as [s|] eqn:F; [|discriminate].
  rewrite (find_prefix _ _ more _ F). assumption.
Qed.

Lemma submitted_then_called_back (cam : Huddlecam) cmd inquiry k err :
  wellFormed cam ->
  let a := nextPromise cam in
  let p := {| op_id := a; op_command := cmd;
              op_inquiry := inquiry; op_then := k |} in
  let sent := (written cam ++ [Buffer.fromHex (Js.stripSpaces cmd)])%list in
  writeCallback a err (fst (sendCommand cmd inquiry k cam))
  = match err with
    | Some e =>
        {| states := states cam; written := sent;
           writeCallbacks := (writeCallbacks cam ++ [])%list;
           dataListeners := dataListeners cam;
           settled :=
             (settled cam ++
                [(a, Rejected {| command := cmd;
                                 response := RespError e |})])%list;
           nextPromise := S a |}
    | None =>
        if inquiry then
          {| states := states cam; written := sent;
             writeCallbacks := (writeCallbacks cam ++ [])%list;
             dataListeners := (dataListeners cam ++ [p])%list;
             settled := settled cam;
             nextPromise := S a |}
        else
          {| states := states cam; written := sent;
             writeCallbacks := (writeCallbacks cam ++ [])%list;
             dataListeners := dataListeners cam;
             settled :=
               (settled cam ++
                  [(a, Fulfilled (k {| command := cmd;
                                       response := RespTrue |}))])%list;
             nextPromise := S a |}
    end.
Proof.
  intros Hwf a p sent.
  destruct (fresh_promise cam a Hwf (le_n _)) as [Hw _].
  unfold sendCommand, writeCallback. simpl. fold a. fold p. fold sent.
  rewrite (takeOperation_fresh a (writeCallbacks cam) [] p eq_refl Hw).
  destruct err; [reflexivity|]. destruct inquiry; reflexivity.
Qed.

Lemma run_call_then_callback (events : list Event) op cmd inquiry k err :
  (forall cam, invoke op cam = sendCommand cmd inquiry k cam) ->
  run (events ++ [Call op; WriteDone (nextPromise (run events)) err])
  = writeCallback (nextPromise (run events)) err
      (fst (sendCommand cmd inquiry k (run events))).
Proof.
  intros Hop. unfold run at 1. rewrite fold_left_app. fold (run events).
  simpl. rewrite Hop. reflexivity.
Qed.

Lemma outcome_last (cam : Huddlecam) (id : nat) (o : Outcome) st :
  ~ In id (map fst st) ->
  find (fun s => Nat.eqb (fst s) id) (st ++ [(id, o)])
  = Some (id, o).
Proof.
  intros H. rewrite find_skip by assumption. simpl.
  rewrite Nat.eqb_refl. reflexivity.
Qed.

Lemma disjoint_stages {A} (l r : list A) (a : A) :
  NoDup (l ++ r) -> In a l -> In a r -> False.
Proof.
  induction l as [|x l IH]; simpl; intros Hnd Hl Hr; [contradiction|].
  inversion Hnd as [|? ? Hx Hnd']; subst.
  destruct Hl as [->|Hl]; [|eauto].
  apply Hx. apply in_or_app. right. assumption.
Qed.

Lemma armed_not_resolved (cam : Huddlecam) (id : nat) :
  wellFormed cam -> awaitingReply id cam -> ~ resolved id cam.
Proof.
  intros [Hnd _] Ha Hr. unfold promises in Hnd.
  apply NoDup_app_remove_l in Hnd.
  exact (disjoint_stages _ _ id Hnd Ha Hr).
Qed.

Lemma listeners_step (cam : Huddlecam) (e : Event) :
  isData e = false ->
  exists more, dataListeners (step cam e) = (dataListeners cam ++ more)%list.
Proof.
  destruct e as [op|id err|data]; simpl; intros He; [| |discriminate].
  - destruct (invoke_shape op) as [H|[H|[cmd [inq [k H]]]]]; rewrite H; grows.
  - unfold writeCallback.
    destruct (takeOperation id (writeCallbacks cam)) as [[p rest]|]; [|grows].
    destruct err; [grows|]. destruct (op_inquiry p); grows.
Qed.

Lemma stripSpaces_app (a b : string) :
  Js.stripSpaces (a ++ b) = Js.stripSpaces a ++ Js.stripSpaces b.
Proof.
  induction a as [|c a IH]; simpl; [reflexivity|].
  destruct (Js.isSpace c); simpl; rewrite IH; reflexivity.
Qed.

(** X1. In every reachable state, a command (a request sent with
    [inquiry = false]) whose write succeeds is fulfilled by the write
    callback itself with [response = true]: no listener is armed for it and
    no later chunk of data changes its outcome. *)
Theorem command_is_fulfilled_by_write (events : list Event) op cmd data :
  (forall cam, invoke op cam = sendCommand cmd false VResponse cam) ->
  let a := nextPromise (run events) in
  let after := run (events ++ [Call op; WriteDone a None]) in
  let ack := Fulfilled (VResponse {| command := cmd; response := RespTrue |}) in
  outcome a after = Some ack
  /\ dataListeners after = dataListeners (run events)
  /\ outcome a (step after (Data data)) = Some ack.
Proof.
  intros Hop a after ack.
  assert (Hwf : wellFormed (run events)) by apply wellFormed_run.
  destruct (fresh_promise _ a Hwf (le_n _)) as [_ [_ Hs]].
  assert (E : outcome a after = Some ack /\
              dataListeners after = dataListeners (run events)).
  { unfold after, a. rewrite (run_call_then_callback events op cmd false VResponse None)
      by assumption.
    rewrite submitted_then_called_back by assumption.
    unfold outcome. simpl.
    rewrite (outcome_last (run events)) by assumption. auto. }
  destruct E as [E1 E2]. repeat split; try assumption.
  destruct (settled_step after (Data data)) as [more Hm].
  exact (outcome_prefix a after _ more _ Hm E1).
Qed.

Lemma command_is_fulfilled_by_write_witness :
  outcome 0 (run [Call Home; WriteDone 0 None])
  = Some (Fulfilled (VResponse {| command := "81 01 06 04 FF";
                                  response := RespTrue |})).
Proof.
  apply (command_is_fulfilled_by_write [] Home "81 01 06 04 FF" []).
  intros cam. reflexivity.
Defined.

(** X2. In every reachable state, a request (command or inquiry) whose
    write fails is rejected with the command text and the transport's
    error; an inquiry that failed this way is not awaiting a reply, and a
    later chunk of data leaves the rejection as it is. *)
Theorem failed_write_rejects (events : list Event) op cmd inquiry k err data :
  (forall cam, invoke op cam = sendCommand cmd inquiry k cam) ->
  let a := nextPromise (run events) in
  let after := run (events ++ [Call op; WriteDone a (Some err)]) in
  let failure :=
    Rejected {| command := cmd; response := RespError err |} in
  outcome a after = Some failure
  /\ ~ awaitingReply a after
  /\ dataListeners after = dataListeners (run events)
  /\ outcome a (step after (Data data)) = Some failure.
Proof.
  intros Hop a after failure.
  assert (Hwf : wellFormed (run events)) by apply wellFormed_run.
  destruct (fresh_promise _ a Hwf (le_n _)) as [_ [Hl Hs]].
  assert (E : outcome a after = Some failure /\
              dataListeners after = dataListeners (run events)).
  { unfold after, a.
    rewrite (run_call_then_callback events op cmd inquiry k (Some err))
      by assumption.
    rewrite submitted_then_called_back by assumption.
    unfold outcome. simpl.
    rewrite (outcome_last (run events)) by assumption. auto. }
  destruct E as [E1 E2]. repeat split; try assumption.
  - unfold awaitingReply. rewrite E2. assumption.
  - destruct (settled_step after (Data data)) as [more Hm].
    exact (outcome_prefix a after _ more _ Hm E1).
Qed.

Lemma failed_write_rejects_witness :
  outcome 0 (run [Call PowerInquiry; WriteDone 0 (Some "port closed")])
  = Some (Rejected {| command := "81 09 04 00 FF";
                      response := RespError "port closed" |}).
Proof.
  apply (failed_write_rejects [] PowerInquiry "81 09 04 00 FF" true
           powerInquiry_reply "port closed" []).
  intros cam. reflexivity.
Defined.

(** X3. The buffers reach the transport at the call, in the order of the
    calls: after any sequence of events, what has been handed to
    [serial.write] is the frames of the calls in that sequence, in order;
    write callbacks and incoming data write nothing, and the frame of a call
    does not depend on the state it is made in. *)
Theorem writes_follow_calls (events : list Event) :
  written (run events) = List.concat (map frameOf events)
  /\ (forall cam op, emitted (invoke op) cam = frameOf (Call op))
  /\ (forall cam id err, written (writeCallback id err cam) = written cam)
  /\ (forall cam data, written (emitData data cam) = written cam).
Proof.
  split; [|split; [|split]].
  - induction events as [|e events IH] using rev_ind; [reflexivity|].
    rewrite run_snoc, written_step, IH, map_app, concat_app. simpl.
    rewrite app_nil_r. reflexivity.
  - intros cam op. unfold emitted.
    change (fst (invoke op cam)) with (step cam (Call op)).
    rewrite written_step. apply skipn_length_app.
  - intros cam id err.
    rewrite <- (app_nil_r (written cam)).
    exact (written_step cam (WriteDone id err)).
  - reflexivity.
Qed.

(** X4. A settled promise stays settled with the same outcome: whatever
    events follow, the outcome recorded for it does not change. *)
Theorem settled_outcome_is_final (events more : list Event) (id : nat) o :
  outcome id (run events) = Some o ->
  outcome id (run (events ++ more)) = Some o.
Proof.
  intros H. unfold run at 1. rewrite fold_left_app. fold (run events).
  destruct (settled_fold more (run events)) as [ext Hext].
  exact (outcome_prefix id (run events) _ ext o Hext H).
Qed.

Lemma settled_outcome_is_final_witness :
  outcome 0 (run ([Call PowerInquiry; WriteDone 0 None; Data powerIsOn]
                    ++ [Call PowerInquiry; WriteDone 1 None;
                        Data [x90; x50; x03; xff]]))
  = Some (Fulfilled (VString "On")).
Proof.
  apply (settled_outcome_is_final
           [Call PowerInquiry; WriteDone 0 None; Data powerIsOn]).
  reflexivity.
Defined.

(** X5. A reply that arrives after an inquiry is written but before its
    write callback runs is not delivered to that inquiry: the listener is
    armed only by the callback, so afterwards the inquiry is awaiting a
    reply, unresolved, and the chunk is gone. *)
Theorem early_reply_is_lost (events : list Event) op cmd k data :
  (forall cam, invoke op cam = sendCommand cmd true k cam) ->
  let a := nextPromise (run events) in
  let after := run (events ++ [Call op; Data data; WriteDone a None]) in
  awaitingReply a after /\ ~ resolved a after
  /\ dataListeners after
     = [{| op_id := a; op_command := cmd;
           op_inquiry := true; op_then := k |}].
Proof.
  intros Hop a after.
  assert (Hwf : wellFormed (run events)) by apply wellFormed_run.
  assert (Hwf' : wellFormed after) by apply wellFormed_run.
  destruct (fresh_promise _ a Hwf (le_n _)) as [Hw [Hl Hs]].
  assert (E : dataListeners after
              = [{| op_id := a; op_command := cmd;
                    op_inquiry := true; op_then := k |}]).
  { unfold after, run. rewrite fold_left_app. fold (run events).
    simpl. rewrite Hop. unfold sendCommand, emitData, writeCallback. simpl.
    fold a.
    rewrite (takeOperation_fresh a (writeCallbacks (run events)) []
               {| op_id := a; op_command := cmd;
                  op_inquiry := true; op_then := k |} eq_refl Hw).
    reflexivity. }
  assert (Ha : awaitingReply a after).
  { unfold awaitingReply. rewrite E. simpl. auto. }
  split; [assumption|]. split; [|assumption].
  apply armed_not_resolved; assumption.
Qed.

Lemma early_reply_is_lost_witness :
  awaitingReply 0 (run [Call PowerInquiry; Data powerIsOn; WriteDone 0 None])
  /\ ~ resolved 0
         (run [Call PowerInquiry; Data powerIsOn; WriteDone 0 None]).
Proof.
  split;
    apply (early_reply_is_lost [] PowerInquiry "81 09 04 00 FF"
             powerInquiry_reply powerIsOn);
    intros cam; reflexivity.
Defined.

(** X6. Nothing but incoming data ends the wait of an inquiry: an inquiry
    that is awaiting a reply is still awaiting it, unresolved, after any
    further calls and write callbacks, however many. *)
Theorem only_data_ends_the_wait (events more : list Event) (id : nat) :
  awaitingReply id (run events) ->
  forallb (fun e => negb (isData e)) more = true ->
  awaitingReply id (run (events ++ more))
  /\ ~ resolved id (run (events ++ more)).
Proof.
  intros Ha Hmore.
  assert (H : awaitingReply id (run (events ++ more))).
  { unfold run at 1. rewrite fold_left_app. fold (run events).
    revert Ha Hmore. generalize (run events) as cam.
    induction more as [|e more IH]; intros cam Ha Hmore; simpl;
      [assumption|].
    simpl in Hmore. apply andb_prop in Hmore. destruct Hmore as [He Hmore].
    apply IH; [|assumption].
    destruct (listeners_step cam e) as [ext Hext];
      [destruct (isData e); [discriminate|reflexivity]|].
    unfold awaitingReply in *. rewrite Hext, map_app.
    apply in_or_app. left. assumption. }
  split; [assumption|].
  apply armed_not_resolved; [apply wellFormed_run|assumption].
Qed.

Lemma only_data_ends_the_wait_witness :
  awaitingReply 0
    (run ([Call PowerInquiry; WriteDone 0 None]
            ++ [Call Home; WriteDone 1 None; Call Stop])).
Proof.
  apply (only_data_ends_the_wait [Call PowerInquiry; WriteDone 0 None]).
  - unfold awaitingReply. simpl. auto.
  - reflexivity.
Defined.

(** X7. Blanks in a command text do not reach the transport: a command
    with a blank inserted anywhere hands the same buffer to [serial.write]
    as the command without it. *)
Theorem blanks_do_not_matter (before after : string) (c : ascii)
    inquiry k (cam : Huddlecam) :
  Js.isSpace c = true ->
  emitted (sendCommand (before ++ String c after) inquiry k) cam
  = emitted (sendCommand (before ++ after) inquiry k) cam.
Proof.
  intros Hc. rewrite !emitted_sendCommand, !stripSpaces_app.
  simpl. rewrite Hc. reflexivity.
Qed.

Lemma blanks_do_not_matter_witness :
  emitted (sendCommand ("8101" ++ String " " "040702FF") false VResponse)
    constructor
  = emitted (sendCommand ("8101" ++ "040702FF") false VResponse) constructor.
Proof. apply blanks_do_not_matter. reflexivity. Defined.

(** ** The response decoder, inquiry by inquiry *)

Lemma statusChar (cmd : string) (reply : list byte) :
  responseAt (replyText cmd reply) 5
  = option_map Js.hexChar (statusNibble reply).
Proof. destruct reply as [|b0 [|b1 [|b2 rest]]]; reflexivity. Qed.

Lemma statusNibble_range (reply : list byte) (n : Z) :
  statusNibble reply = Some n -> 0 <= n < 16.
Proof.
  unfold statusNibble. destruct (nth_error reply 2); [|discriminate].
  intros H. inversion H. apply Z.mod_pos_bound. lia.
Qed.

Lemma sixteen_cases (digit : Z) :
  0 <= digit < 16 ->
  digit = 0 \/ digit = 1 \/ digit = 2 \/ digit = 3 \/ digit = 4 \/ digit = 5 \/ digit = 6 \/ digit = 7
  \/ digit = 8 \/ digit = 9 \/ digit = 10 \/ digit = 11 \/ digit = 12 \/ digit = 13 \/ digit = 14
  \/ digit = 15.
Proof. lia. Qed.

(** Going through the branches of a table. *)
Ltac by_table :=
  repeat match goal with
         | |- context [match ?x with _ => _ end] => destruct x
         end;
  discriminate.

Lemma exposureInquiry_reply_table (cmd : string) (reply : list byte) :
  exposureInquiry_reply (replyText cmd reply)
  = VString (exposureState (statusNibble reply)).
Proof.
  unfold exposureInquiry_reply. cbv zeta. rewrite statusChar.
  destruct (statusNibble reply) as [n|] eqn:E; [|reflexivity].
  pose proof (sixteen_cases n (statusNibble_range reply n E)) as C.
  by_enumeration C.
Qed.

Lemma videoFormatInquiry_reply_table (cmd : string) (reply : list byte) :
  videoFormatInquiry_reply (replyText cmd reply)
  = VString (videoFormatState (statusNibble reply)).
Proof.
  unfold videoFormatInquiry_reply. cbv zeta. rewrite statusChar.
  destruct (statusNibble reply) as [n|] eqn:E; [|reflexivity].
  pose proof (sixteen_cases n (statusNibble_range reply n E)) as C.
  by_enumeration C.
Qed.

(** X8. An exposure inquiry never reports "Shutter Priority" or "Iris
    Priority": the reply is compared as lowercase hexadecimal text with the
    uppercase labels [A] and [B], so in every reachable state the promise is
    fulfilled with "Full Auto" for status 0, "Manual" for status 3 and
    "Unknown" for every other reply, status a and b included. *)
Theorem exposure_inquiry_misses_priorities (events : list Event)
    (reply : list byte) :
  outcome (nextPromise (run events))
    (run (events ++ [Call ExposureInquiry;
                     WriteDone (nextPromise (run events)) None; Data reply]))
  = Some (Fulfilled (VString (exposureState (statusNibble reply))))
  /\ exposureInquiry_reply (replyText "81 09 04 39 FF" reply)
     <> VString "Shutter Priority"
  /\ exposureInquiry_reply (replyText "81 09 04 39 FF" reply)
     <> VString "Iris Priority"
  /\ exposureInquiry_reply (replyText "81 09 04 39 FF" [x90; x50; x0a; xff])
     = VString "Unknown"
  /\ exposureInquiry_reply (replyText "81 09 04 39 FF" [x90; x50; x0b; xff])
     = VString "Unknown".
Proof.
  split.
  - rewrite (inquiry_resolves events ExposureInquiry
               "81 09 04 39 FF" exposureInquiry_reply reply)
      by (intros cam; reflexivity).
    fold (replyText "81 09 04 39 FF" reply).
    rewrite exposureInquiry_reply_table. reflexivity.
  - rewrite exposureInquiry_reply_table.
    repeat split; try reflexivity;
      unfold exposureState; intros H; revert H; by_table.
Qed.

(** X9. A video-format inquiry never reports "1920x1080i/50",
    "1280x720p/50" or the empty text: their labels [A], [B] and [D] are
    uppercase while the reply text is lowercase, so in every reachable
    state the promise is fulfilled with one of the four formats of status
    1, 2, 3 and 9, or with "Unknown". *)
Theorem video_format_inquiry_misses_formats (events : list Event)
    (reply : list byte) :
  outcome (nextPromise (run events))
    (run (events ++ [Call VideoFormatInquiry;
                     WriteDone (nextPromise (run events)) None; Data reply]))
  = Some (Fulfilled (VString (videoFormatState (statusNibble reply))))
  /\ videoFormatInquiry_reply (replyText "81 09 06 23 FF" reply)
     <> VString "1920x1080i/50"
  /\ videoFormatInquiry_reply (replyText "81 09 06 23 FF" reply)
     <> VString "1280x720p/50"
  /\ videoFormatInquiry_reply (replyText "81 09 06 23 FF" reply)
     <> VString "".
Proof.
  split.
  - rewrite (inquiry_resolves events VideoFormatInquiry
               "81 09 06 23 FF" videoFormatInquiry_reply reply)
      by (intros cam; reflexivity).
    fold (replyText "81 09 06 23 FF" reply).
    rewrite videoFormatInquiry_reply_table. reflexivity.
  - rewrite videoFormatInquiry_reply_table.
    repeat split; unfold videoFormatState; intros H; revert H; by_table.
Qed.

(** X10. The seven status inquiries read nothing of a reply but the low
    nibble of its third byte: two replies that agree on it are decoded to
    the same value, whatever their header, their other bytes, their length
    or the high nibble of the third byte. *)
Theorem status_decoders_read_one_nibble (cmd : string)
    (reply reply' : list byte) :
  statusNibble reply = statusNibble reply' ->
  powerInquiry_reply (replyText cmd reply)
  = powerInquiry_reply (replyText cmd reply')
  /\ focusInquiry_reply (replyText cmd reply)
     = focusInquiry_reply (replyText cmd reply')
  /\ whiteBalanceInquiry_reply (replyText cmd reply)
     = whiteBalanceInquiry_reply (replyText cmd reply')
  /\ exposureInquiry_reply (replyText cmd reply)
     = exposureInquiry_reply (replyText cmd reply')
  /\ backlightInquiry_reply (replyText cmd reply)
     = backlightInquiry_reply (replyText cmd reply')
  /\ videoFormatInquiry_reply (replyText cmd reply)
     = videoFormatInquiry_reply (replyText cmd reply')
  /\ colorFormatInquiry_reply (replyText cmd reply)
     = colorFormatInquiry_reply (replyText cmd reply').
Proof.
  intros H.
  unfold powerInquiry_reply, focusInquiry_reply, whiteBalanceInquiry_reply,
    exposureInquiry_reply, backlightInquiry_reply, videoFormatInquiry_reply,
    colorFormatInquiry_reply.
  cbv zeta. rewrite !statusChar, H. repeat split.
Qed.

Lemma status_decoders_read_one_nibble_witness :
  powerInquiry_reply (replyText "81 09 04 00 FF" [x90; x50; x02; xff])
  = powerInquiry_reply (replyText "81 09 04 00 FF" [x90; x60; xf2]).
Proof.
  apply (status_decoders_read_one_nibble "81 09 04 00 FF"
           [x90; x50; x02; xff] [x90; x60; xf2]).
  reflexivity.
Defined.

(** ** Decoding a position *)

Lemma unhex_hexChar (d : Z) : isNibble d -> Js.unhex (Js.hexChar d) = Some d.
Proof. intros H. pose proof (sixteen_cases d H) as C. by_enumeration C. Qed.

Lemma parseDigits_hexText (ds : list Z) :
  Forall isNibble ds ->
  forall acc,
    Js.parseDigits (hexText ds) acc
    = fold_left (fun acc d => acc * 16 + d) ds acc.
Proof.
  induction 1 as [|d ds Hd Hds IH]; intros acc; simpl; [reflexivity|].
  rewrite (unhex_hexChar d Hd). apply IH.
Qed.

Lemma parseInt16_hexText (ds : list Z) :
  Forall isNibble ds -> ds <> [] ->
  Js.parseInt16 (hexText ds) = Some (hexValue ds).
Proof.
  intros Hds Hne. destruct ds as [|a ds]; [congruence|]. clear Hne.
  inversion Hds as [|? ? Ha Hds']; subst.
  destruct ds as [|b ds].
  - pose proof (sixteen_cases a Ha) as C. by_enumeration C.
  - inversion Hds' as [|? ? Hb Hds'']; subst.
    transitivity (Some (Js.parseDigits (hexText ds) (a * 16 + b))).
    + pose proof (sixteen_cases a Ha) as Ca.
      pose proof (sixteen_cases b Hb) as Cb.
      clear Hds Hds' Ha Hb.
      repeat (destruct Ca as [-> | Ca]);
        try subst a;
        repeat (destruct Cb as [-> | Cb]);
        try subst b; reflexivity.
    + rewrite parseDigits_hexText by assumption. reflexivity.
Qed.

Lemma parseHex_hexText (ds : list Z) :
  Forall isNibble ds -> parseHex (hexText ds) = readNibbles ds.
Proof.
  intros Hds. destruct ds as [|a ds]; [reflexivity|].
  unfold parseHex. rewrite parseInt16_hexText by (assumption || discriminate).
  reflexivity.
Qed.

Lemma lowNibble_isNibble (b : byte) : isNibble (lowNibble b).
Proof. unfold isNibble, lowNibble. apply Z.mod_pos_bound. lia. Qed.

Lemma nibbles_of_bytes (bs : list byte) : Forall isNibble (map lowNibble bs).
Proof.
  induction bs as [|b bs IH]; simpl; constructor;
    [apply lowNibble_isNibble|assumption].
Qed.

Lemma position_text (cmd : string) (reply : list byte) :
  positionInquiry_reply (replyText cmd reply)
  = VPosition (parseHex (hexText (panNibbles reply)))
              (parseHex (hexText (tiltNibbles reply))).
Proof.
  destruct reply
    as [|b0 [|b1 [|b2 [|b3 [|b4 [|b5 [|b6 [|b7 [|b8 [|b9 [|b10 rest]]]]]]]]]]];
    reflexivity.
Qed.

Lemma position_nibbles (cmd : string) (reply : list byte) :
  positionInquiry_reply (replyText cmd reply)
  = VPosition (readNibbles (panNibbles reply))
              (readNibbles (tiltNibbles reply)).
Proof.
  rewrite position_text.
  rewrite !parseHex_hexText by apply nibbles_of_bytes. reflexivity.
Qed.

Lemma hexValue_bound (ds : list Z) :
  Forall isNibble ds -> (List.length ds <= 4)%nat ->
  0 <= hexValue ds < 65536.
Proof.
  intros Hds Hlen. unfold hexValue.
  destruct ds as [|a [|b [|c [|d [|e ds]]]]]; simpl in *; try lia;
    repeat match goal with
           | H : Forall _ (_ :: _) |- _ => inversion H; subst; clear H
           end;
    unfold isNibble in *; lia.
Qed.

Lemma signed16_range (u : Z) :
  0 <= u < 65536 -> -32768 <= signed16 u <= 32767.
Proof.
  intros H. unfold signed16.
  destruct (u >=? 32768) eqn:E; [apply Z.geb_le in E; lia|].
  rewrite Z.geb_leb in E. apply Z.leb_gt in E. lia.
Qed.

Lemma readNibbles_none (ds : list Z) : readNibbles ds = None <-> ds = [].
Proof. destruct ds; simpl; split; congruence. Qed.

Lemma readNibbles_range (bs : list byte) (v : Z) :
  readNibbles (map lowNibble (firstn 4 bs)) = Some v ->
  -32768 <= v <= 32767.
Proof.
  intros H.
  assert (B : 0 <= hexValue (map lowNibble (firstn 4 bs)) < 65536).
  { apply hexValue_bound; [apply nibbles_of_bytes|].
    rewrite length_map. apply firstn_le_length. }
  destruct (map lowNibble (firstn 4 bs)) as [|d ds]; [discriminate|].
  simpl in H. inversion H. apply signed16_range. assumption.
Qed.

Lemma lowNibble_byteOf (d : Z) : isNibble d -> lowNibble (Buffer.byteOf d) = d.
Proof. intros H. pose proof (sixteen_cases d H) as C. by_enumeration C. Qed.

Lemma nibbles_value (v : Z) :
  -32768 <= v <= 32767 ->
  signed16 (hexValue [nibble 3 v; nibble 2 v; nibble 1 v; nibble 0 v]) = v.
Proof.
  intros Hv. unfold hexValue, nibble, signed16. simpl fold_left.
  change (16 ^ 3) with 4096. change (16 ^ 2) with 256.
  change (16 ^ 1) with 16. change (16 ^ 0) with 1.
  destruct (v <? 0) eqn:E; [apply Z.ltb_lt in E|apply Z.ltb_ge in E];
    match goal with
    | |- (if ?c then _ else _) = _ => destruct c eqn:G
    end;
    [apply Z.geb_le in G | rewrite Z.geb_leb in G; apply Z.leb_gt in G
    |apply Z.geb_le in G | rewrite Z.geb_leb in G; apply Z.leb_gt in G];
    Z.to_euclidean_division_equations; lia.
Qed.

(** X11. A position inquiry reads the low nibbles only. In every reachable
    state its promise is fulfilled with the signed 16-bit reading of the
    low nibbles of reply bytes 2 to 5 as pan and of bytes 6 to 9 as tilt,
    taking as many of these digits as the reply has; for a reply of ten
    bytes or more that is four digits each, and the two header bytes, the
    high nibbles and everything after the tenth byte are not looked at. *)
Theorem position_inquiry_reads_low_nibbles (events : list Event)
    (reply : list byte) :
  outcome (nextPromise (run events))
    (run (events ++ [Call PositionInquiry;
                     WriteDone (nextPromise (run events)) None; Data reply]))
  = Some (Fulfilled (VPosition (readNibbles (panNibbles reply))
                               (readNibbles (tiltNibbles reply))))
  /\ forall cmd b0 b1 b2 b3 b4 b5 b6 b7 b8 b9 rest,
       positionInquiry_reply
         (replyText cmd
            (b0 :: b1 :: b2 :: b3 :: b4 :: b5 :: b6 :: b7 :: b8 :: b9 :: rest))
       = VPosition
           (Some (signed16 (((lowNibble b2 * 16 + lowNibble b3) * 16
                             + lowNibble b4) * 16 + lowNibble b5)))
           (Some (signed16 (((lowNibble b6 * 16 + lowNibble b7) * 16
                             + lowNibble b8) * 16 + lowNibble b9))).
Proof.
  split.
  - rewrite (inquiry_resolves events PositionInquiry
               "81 09 06 12 FF" positionInquiry_reply reply)
      by (intros cam; reflexivity).
    fold (replyText "81 09 06 12 FF" reply).
    rewrite position_nibbles. reflexivity.
  - intros. rewrite position_nibbles. reflexivity.
Qed.

(** X12. The edges of a position reply. Pan is [NaN] exactly when the reply
    has fewer than three bytes and tilt exactly when it has fewer than
    seven; a pan or tilt that is a number lies between -32768 and 32767. *)
Theorem position_inquiry_edges (cmd : string) (reply : list byte)
    (pan tilt : option Z) :
  positionInquiry_reply (replyText cmd reply) = VPosition pan tilt ->
  (pan = None <-> (List.length reply <= 2)%nat)
  /\ (tilt = None <-> (List.length reply <= 6)%nat)
  /\ (forall p, pan = Some p -> -32768 <= p <= 32767)
  /\ (forall t, tilt = Some t -> -32768 <= t <= 32767).
Proof.
  rewrite position_nibbles. intros H. inversion H; subst; clear H.
  unfold panNibbles, tiltNibbles.
  split; [|split; [|split]].
  - rewrite readNibbles_none.
    destruct reply as [|b0 [|b1 [|b2 rest]]]; simpl;
      split; intros H; try reflexivity; try lia; discriminate.
  - rewrite readNibbles_none.
    destruct reply as [|b0 [|b1 [|b2 [|b3 [|b4 [|b5 [|b6 rest]]]]]]]; simpl;
      split; intros H; try reflexivity; try lia; discriminate.
  - intros p. apply readNibbles_range.
  - intros t. apply readNibbles_range.
Qed.

Lemma position_inquiry_edges_witness :
  (Some 8 = None <-> (List.length [x90; x50; x08] <= 2)%nat)
  /\ (@None Z = None <-> (List.length [x90; x50; x08] <= 6)%nat)
  /\ (forall p, Some 8 = Some p -> -32768 <= p <= 32767)
  /\ (forall t, @None Z = Some t -> -32768 <= t <= 32767).
Proof.
  apply (position_inquiry_edges "81 09 06 12 FF" [x90; x50; x08]).
  reflexivity.
Defined.

(** On integer arguments: the eight position bytes of the frame of
    [moveTo], put behind a reply header, are decoded to the tilt that was
    given and to the pan whose second digit is replaced by its first. *)
Lemma moveTo_read_back (ps ts pan tilt : Z) (relative : bool)
    (cam : Huddlecam) (cmd : string) :
  -32768 <= pan <= 32767 -> -32768 <= tilt <= 32767 ->
  exists frame,
    emitted (moveTo ps ts pan tilt relative) cam = [frame]
    /\ positionInquiry_reply (replyText cmd (x90 :: x50 :: skipn 6 frame))
       = VPosition
           (Some (signed16 (hexValue [nibble 3 pan; nibble 3 pan;
                                      nibble 1 pan; nibble 0 pan])))
           (Some tilt)
    /\ (nibble 2 pan = nibble 3 pan ->
        positionInquiry_reply (replyText cmd (x90 :: x50 :: skipn 6 frame))
        = VPosition (Some pan) (Some tilt)).
Proof.
  intros Hpan Htilt. eexists.
  split; [apply moveTo_frame_layout; assumption|].
  assert (E : positionInquiry_reply
                (replyText cmd
                   (x90 :: x50
                      :: skipn 6
                           [x81; x01; x06; (if relative then x03 else x02);
                            Buffer.byteOf (clamp 1 18 ps);
                            Buffer.byteOf (clamp 1 14 ts);
                            Buffer.byteOf (nibble 3 pan);
                            Buffer.byteOf (nibble 3 pan);
                            Buffer.byteOf (nibble 1 pan);
                            Buffer.byteOf (nibble 0 pan);
                            Buffer.byteOf (nibble 3 tilt);
                            Buffer.byteOf (nibble 2 tilt);
                            Buffer.byteOf (nibble 1 tilt);
                            Buffer.byteOf (nibble 0 tilt); xff]))
              = VPosition
                  (Some (signed16 (hexValue [nibble 3 pan; nibble 3 pan;
                                             nibble 1 pan; nibble 0 pan])))
                  (Some tilt)).
  { rewrite position_nibbles. unfold panNibbles, tiltNibbles. simpl.
    rewrite !lowNibble_byteOf by apply nibble_range.
    rewrite (nibbles_value tilt Htilt). reflexivity. }
  split; [exact E|].
  intros H. rewrite E. rewrite <- H at 2.
  rewrite (nibbles_value pan Hpan). reflexivity.
Qed.

(** ** The frames of the motion commands *)

Lemma move_frame_axes (d : Direction) ps ts cam :
  emitted (move (directionCode d) ps ts) cam
  = [[x81; x01; x06; x01;
      Buffer.byteOf (clamp 1 18 ps); Buffer.byteOf (clamp 1 14 ts);
      fst (axisBytes d); snd (axisBytes d); xff]].
Proof.
  destruct d; (etransitivity; [apply move_frame|reflexivity]).
Qed.

Lemma byteOf_small (speed : Z) :
  0 <= speed <= 18 ->
  Buffer.byteOf speed <> xff /\ (1 <= speed -> Buffer.byteOf speed <> x00).
Proof.
  intros H.
  assert (C : speed = 0 \/ speed = 1 \/ speed = 2 \/ speed = 3
              \/ speed = 4 \/ speed = 5 \/ speed = 6 \/ speed = 7
              \/ speed = 8 \/ speed = 9 \/ speed = 10 \/ speed = 11
              \/ speed = 12 \/ speed = 13 \/ speed = 14 \/ speed = 15
              \/ speed = 16 \/ speed = 17 \/ speed = 18)
    by lia.
  repeat (destruct C as [-> | C];
          [split; [discriminate|intros; try lia; discriminate]|]).
  subst speed. split; [discriminate|intros; discriminate].
Qed.

Lemma byteOf_nibble (d : Z) :
  isNibble d -> isNibble (Buffer.valueOf (Buffer.byteOf d)).
Proof.
  intros H.
  assert (E : Buffer.valueOf (Buffer.byteOf d) = d).
  { pose proof (sixteen_cases d H) as C. by_enumeration C. }
  rewrite E. assumption.
Qed.

(** On integer arguments: the fifteen bytes of the frame of [moveTo] for
    16-bit coordinates. *)
Lemma moveTo_frame_bytes (ps ts pan tilt : Z) (relative : bool)
    (cam : Huddlecam) :
  -32768 <= pan <= 32767 -> -32768 <= tilt <= 32767 ->
  exists speeds position,
    emitted (moveTo ps ts pan tilt relative) cam
    = [([x81; x01; x06; (if relative then x03 else x02)]
          ++ speeds ++ position ++ [xff])%list]
    /\ emitted (moveTo ps ts pan tilt (negb relative)) cam
       = [([x81; x01; x06; (if relative then x02 else x03)]
             ++ speeds ++ position ++ [xff])%list]
    /\ speeds = [Buffer.byteOf (clamp 1 18 ps); Buffer.byteOf (clamp 1 14 ts)]
    /\ List.length position = 8%nat
    /\ Forall (fun b => isNibble (Buffer.valueOf b)) position.
Proof.
  intros Hpan Htilt.
  exists [Buffer.byteOf (clamp 1 18 ps); Buffer.byteOf (clamp 1 14 ts)].
  exists [Buffer.byteOf (nibble 3 pan); Buffer.byteOf (nibble 3 pan);
          Buffer.byteOf (nibble 1 pan); Buffer.byteOf (nibble 0 pan);
          Buffer.byteOf (nibble 3 tilt); Buffer.byteOf (nibble 2 tilt);
          Buffer.byteOf (nibble 1 tilt); Buffer.byteOf (nibble 0 tilt)].
  split; [rewrite moveTo_frame_layout by assumption; reflexivity|].
  split; [rewrite moveTo_frame_layout by assumption;
          destruct relative; reflexivity|].
  split; [reflexivity|]. split; [reflexivity|].
  repeat (apply Forall_cons; [apply byteOf_nibble, nibble_range|]).
  apply Forall_nil.
Qed.

Lemma delimitedb_sound (frame : list byte) :
  delimitedb frame = true -> delimited frame.
Proof.
  destruct frame as [|first rest]; simpl; [discriminate|].
  intros H. apply andb_prop in H. destruct H as [H1 H2].
  destruct (rev rest) as [|final body] eqn:R; [discriminate|].
  apply andb_prop in H2. destruct H2 as [H2 H3].
  apply Byte.byte_dec_bl in H1. apply Byte.byte_dec_bl in H2. subst.
  exists (rev body). split.
  - f_equal. rewrite <- (rev_involutive rest), R. reflexivity.
  - rewrite <- in_rev. intros Hx. rewrite forallb_forall in H3.
    specialize (H3 _ Hx). discriminate.
Qed.

Lemma delimited_bytes (body : list byte) :
  ~ In xff body -> delimited (x81 :: body ++ [xff]).
Proof. intros H. exists body. split; [reflexivity|assumption]. Qed.

(** On integer arguments: a frame starts with the address byte [81], ends
    with the terminator [FF], and has no [FF] before its end, for every
    operation but [cancelCommand] ([moveTo] with 16-bit coordinates). *)
Lemma frames_are_delimited (op : Operation) (cam : Huddlecam)
    (frame : list byte) :
  terminatedOperation op ->
  In frame (emitted (invoke op) cam) ->
  delimited frame.
Proof.
  intros Hop Hin.
  destruct op; simpl in Hop, Hin; try contradiction;
    try (unfold emitted in Hin; simpl in Hin;
         rewrite skipn_length_app in Hin;
         destruct Hin as [<- | []];
         apply delimitedb_sound; reflexivity);
    try (rewrite emitted_unchanged in Hin by reflexivity; destruct Hin).
  - (* exposureMode *)
    destruct (exposure_mode_shape mode cam) as [b [Hb E]].
    unfold emitted in Hin. rewrite E in Hin. simpl in Hin.
    rewrite skipn_length_app in Hin. destruct Hin as [<- | []].
    destruct Hb as [-> | [-> | [-> | ->]]];
      apply delimitedb_sound; reflexivity.
  - (* move *)
    destruct (Z_lt_ge_dec direction 0) as [Hlo|Hlo];
      [rewrite emitted_unchanged in Hin
         by (rewrite move_outside by lia; reflexivity);
       destruct Hin|].
    destruct (Z_lt_ge_dec 7 direction) as [Hhi|Hhi];
      [rewrite emitted_unchanged in Hin
         by (rewrite move_outside by lia; reflexivity);
       destruct Hin|].
    destruct (move_inside direction) as [d ->]; [lia|].
    rewrite move_frame_axes in Hin. destruct Hin as [<- | []].
    apply (delimited_bytes
             [x01; x06; x01; Buffer.byteOf (clamp 1 18 (orDefault 5 ps));
              Buffer.byteOf (clamp 1 14 (orDefault 3 ts));
              fst (axisBytes d); snd (axisBytes d)]).
    pose proof (clamp_cases 1 18 (orDefault 5 ps)).
    pose proof (clamp_cases 1 14 (orDefault 3 ts)).
    simpl. intros [H'|[H'|[H'|[H'|[H'|[H'|[H'|[]]]]]]]];
      try discriminate;
      try (revert H'; apply byteOf_small; lia);
      destruct d; discriminate.
  - (* moveTo *)
    destruct Hop as [Hpan Htilt].
    rewrite moveTo_frame_layout in Hin by assumption.
    destruct Hin as [<- | []].
    apply (delimited_bytes
             [x01; x06; (if orDefault false relative then x03 else x02);
              Buffer.byteOf (clamp 1 18 ps); Buffer.byteOf (clamp 1 14 ts);
              Buffer.byteOf (nibble 3 pan); Buffer.byteOf (nibble 3 pan);
              Buffer.byteOf (nibble 1 pan); Buffer.byteOf (nibble 0 pan);
              Buffer.byteOf (nibble 3 tilt); Buffer.byteOf (nibble 2 tilt);
              Buffer.byteOf (nibble 1 tilt); Buffer.byteOf (nibble 0 tilt)]).
    pose proof (clamp_cases 1 18 ps). pose proof (clamp_cases 1 14 ts).
    pose proof (nibble_range 3 pan). pose proof (nibble_range 1 pan).
    pose proof (nibble_range 0 pan). pose proof (nibble_range 3 tilt).
    pose proof (nibble_range 2 tilt). pose proof (nibble_range 1 tilt).
    pose proof (nibble_range 0 tilt).
    simpl.
    intros [H'|[H'|[H'|[H'|[H'|[H'|[H'|[H'|[H'|[H'|[H'|[H'|[H'|[]]]]]]]]]]]]]];
      try discriminate;
      try (revert H'; apply byteOf_small; lia);
      destruct (orDefault false relative); discriminate.
Qed.

(** ** Speeds that arrive as text *)




(** ** The socket handler of [moveTo] *)

(** X21. The [relative] argument of the socket message [moveTo] never
    reaches the encoder: the handler sends the same frame for [true] and
    for [false], and the mode byte of that frame is [03] (relative) when
    the argument [W] is not 0 and [02] (absolute) when it is 0. *)
Theorem socket_moveTo_mode_is_W (panSpeed tiltSpeed x y W H : Z)
    (relative : bool) (cam : Huddlecam) :
  onMoveTo panSpeed tiltSpeed x y W H relative cam
  = onMoveTo panSpeed tiltSpeed x y W H (negb relative) cam
  /\ exists frame,
       emitted (onMoveTo panSpeed tiltSpeed x y W H relative) cam = [frame]
       /\ nth_error frame 3 = Some (if W =? 0 then x02 else x03).
Proof.
  split; [reflexivity|].
  unfold onMoveTo, moveTo. cbv zeta. rewrite emitted_sendCommand.
  eexists. split; [reflexivity|].
  destruct (W =? 0); reflexivity.
Qed.

(** ** The arrow keys of the page *)

Lemma held_setKey (a b : Page.Arrow) (v : bool) (k : Page.Keys) :
  Page.held a (Page.setKey b v k)
  = if Page.releases a (Page.KeyUp b) then v else Page.held a k.
Proof. destruct a, b; reflexivity. Qed.

Lemma react_keeps_held (a : Page.Arrow) (g : Page.Globals) (i : Page.Input) :
  Page.held a (Page.keys g) = true ->
  Page.releases a i = false ->
  Page.held a (Page.keys (fst (Page.react g i))) = true
  /\ forall ps ts,
       ~ In (Page.MoveMessage (Page.dirOf a) ps ts) (snd (Page.react g i)).
Proof.
  intros Hh Hr. destruct i as [key|b|name value]; simpl.
  - destruct key as [b|]; simpl; [|split; [assumption|intros ps ts []]].
    destruct (Page.held b (Page.keys g)) eqn:Hb; simpl.
    + split; [|intros ps ts []].
      destruct a, b; simpl in *; assumption || reflexivity.
    + split.
      * destruct a, b; simpl in *; assumption || reflexivity.
      * intros ps ts [H|[]]. inversion H as [[Hd _ _]].
        destruct a, b; simpl in *; try discriminate; congruence.
  - split; [|intros ps ts [H|[]]; discriminate].
    rewrite held_setKey, Hr. assumption.
  - split; [|intros ps ts []].
    unfold Page.slide.
    destruct (String.eqb name "panSpeed"); [assumption|].
    destruct (String.eqb name "tiltSpeed"); assumption.
Qed.

(** X22. A key that is held does not move the camera again: from the
    moment an arrow is marked as pressed and until its own [keyup],
    whatever other keys go down or up and whatever the sliders do, the
    arrow stays marked and no [move] in its direction is emitted; the
    repeated [keydown] of a held key emits nothing. *)
Theorem held_arrow_is_silent (a : Page.Arrow) (inputs : list Page.Input)
    (g : Page.Globals) :
  Page.held a (Page.keys g) = true ->
  forallb (fun i => negb (Page.releases a i)) inputs = true ->
  Page.held a (Page.keys (fst (Page.play inputs g))) = true
  /\ (forall ps ts,
        ~ In (Page.MoveMessage (Page.dirOf a) ps ts)
             (snd (Page.play inputs g)))
  /\ snd (Page.keydown (Page.ArrowKey a) (fst (Page.play inputs g))) = [].
Proof.
  intros Hh Hin.
  assert (H : Page.held a (Page.keys (fst (Page.play inputs g))) = true
              /\ forall ps ts,
                   ~ In (Page.MoveMessage (Page.dirOf a) ps ts)
                        (snd (Page.play inputs g))).
  { revert g Hh Hin.
    induction inputs as [|i inputs IH]; intros g Hh Hin; simpl.
    - split; [assumption|intros ps ts []].
    - simpl in Hin. apply andb_prop in Hin. destruct Hin as [Hi Hin].
      apply negb_true_iff in Hi.
      destruct (react_keeps_held a g i Hh Hi) as [Hh1 Hout1].
      destruct (Page.react g i) as [g1 out1]. simpl in Hh1, Hout1.
      destruct (IH g1 Hh1 Hin) as [Hh2 Hout2].
      destruct (Page.play inputs g1) as [g2 out2]. simpl in *.
      split; [assumption|].
      intros ps ts Hm. apply in_app_or in Hm.
      destruct Hm as [Hm|Hm]; [eapply Hout1|eapply Hout2]; eassumption. }
  destruct H as [H1 H2]. repeat split; try assumption.
  unfold Page.keydown. rewrite H1. reflexivity.
Qed.

Lemma held_arrow_is_silent_witness :
  snd (Page.keydown (Page.ArrowKey Page.ArrowUp)
         (fst (Page.play [Page.KeyDown (Page.ArrowKey Page.ArrowUp);
                          Page.KeyDown (Page.ArrowKey Page.ArrowLeft);
                          Page.KeyUp Page.ArrowLeft]
                 (fst (Page.keydown (Page.ArrowKey Page.ArrowUp)
                         Page.initial)))))
  = [].
Proof.
  apply (held_arrow_is_silent Page.ArrowUp); reflexivity.
Defined.

(** X23. Releasing one arrow stops the camera even while another is held,
    and the held one does not start it again: with an arrow [a] marked as
    pressed, the [keyup] of a different arrow followed by any number of
    repeated [keydown] of [a] emits [moveStop] and nothing else, and leaves
    [a] marked. *)
Theorem releasing_one_arrow_stops (a b : Page.Arrow) (n : nat)
    (g : Page.Globals) :
  a <> b ->
  Page.held a (Page.keys g) = true ->
  Page.play (Page.KeyUp b :: repeat (Page.KeyDown (Page.ArrowKey a)) n) g
  = ({| Page.keys := Page.setKey b false (Page.keys g);
        Page.panSpeed := Page.panSpeed g;
        Page.tiltSpeed := Page.tiltSpeed g |},
     [Page.MoveStopMessage]).
Proof.
  intros Hab Hh. simpl.
  set (k1 := Page.setKey b false (Page.keys g)).
  assert (Hh1 : Page.held a k1 = true).
  { unfold k1. rewrite held_setKey.
    destruct a, b; simpl; try assumption; congruence. }
  assert (Hfix : Page.setKey a true k1 = k1).
  { destruct k1 as [u d l r].
    destruct a; simpl in *; subst; reflexivity. }
  clearbody k1.
  assert (R : Page.play (repeat (Page.KeyDown (Page.ArrowKey a)) n)
                {| Page.keys := k1; Page.panSpeed := Page.panSpeed g;
                   Page.tiltSpeed := Page.tiltSpeed g |}
              = ({| Page.keys := k1; Page.panSpeed := Page.panSpeed g;
                    Page.tiltSpeed := Page.tiltSpeed g |}, [])).
  { induction n as [|n IH]; simpl; [reflexivity|].
    rewrite Hh1. simpl. rewrite Hfix, IH. reflexivity. }
  rewrite R. reflexivity.
Qed.

Lemma releasing_one_arrow_stops_witness :
  snd (Page.play
         (Page.KeyUp Page.ArrowLeft
            :: repeat (Page.KeyDown (Page.ArrowKey Page.ArrowUp)) 3)
         (fst (Page.play [Page.KeyDown (Page.ArrowKey Page.ArrowUp);
                          Page.KeyDown (Page.ArrowKey Page.ArrowLeft)]
                 Page.initial)))
  = [Page.MoveStopMessage].
Proof.
  rewrite (releasing_one_arrow_stops Page.ArrowUp Page.ArrowLeft 3);
    [reflexivity|discriminate|reflexivity].
Defined.

(** ** The remaining tables *)

Lemma status_table (cmd : string) (reply : list byte)
    (decode : CameraResponse -> Value) (table : option Z -> string) :
  (forall n, isNibble n ->
             decode (replyText cmd [x00; x00; Buffer.byteOf n])
             = VString (table (Some n))) ->
  decode (replyText cmd []) = VString (table None) ->
  (forall r r', statusNibble r = statusNibble r' ->
                decode (replyText cmd r) = decode (replyText cmd r')) ->
  decode (replyText cmd reply) = VString (table (statusNibble reply)).
Proof.
  intros Hn Hnone Hdep.
  destruct (statusNibble reply) as [n|] eqn:E.
  - rewrite <- Hn by (eapply statusNibble_range; eassumption).
    apply Hdep. rewrite E. unfold statusNibble. simpl.
    change (Buffer.valueOf (Buffer.byteOf n) mod 16)
      with (lowNibble (Buffer.byteOf n)).
    rewrite lowNibble_byteOf by (eapply statusNibble_range; eassumption).
    reflexivity.
  - rewrite <- Hnone. apply Hdep. rewrite E. reflexivity.
Qed.

Ltac by_status_table :=
  apply status_table;
  [ intros n Hn; pose proof (sixteen_cases n Hn) as C; by_enumeration C
  | reflexivity
  | intros r r' H;
    match goal with
    | |- ?f _ = _ => unfold f
    end;
    cbv zeta; rewrite !statusChar, H; reflexivity ].

Lemma focusInquiry_reply_table (cmd : string) (reply : list byte) :
  focusInquiry_reply (replyText cmd reply)
  = VString (focusState (statusNibble reply)).
Proof. by_status_table. Qed.

Lemma whiteBalanceInquiry_reply_table (cmd : string) (reply : list byte) :
  whiteBalanceInquiry_reply (replyText cmd reply)
  = VString (whiteBalanceState (statusNibble reply)).
Proof. by_status_table. Qed.

Lemma backlightInquiry_reply_table (cmd : string) (reply : list byte) :
  backlightInquiry_reply (replyText cmd reply)
  = VString (backlightState (statusNibble reply)).
Proof. by_status_table. Qed.

Lemma colorFormatInquiry_reply_table (cmd : string) (reply : list byte) :
  colorFormatInquiry_reply (replyText cmd reply)
  = VString (colorFormatState (statusNibble reply)).
Proof. by_status_table. Qed.

(** X24. The tables of the focus, white-balance, backlight and
    colour-format inquiries. In every reachable state each of these
    inquiries, its write acknowledged, is fulfilled by the next reply with
    the text its table gives for the low nibble of the third reply byte,
    and with "Unknown" for any other nibble or a reply of fewer than three
    bytes. *)
Theorem status_inquiry_tables (events : list Event) (reply : list byte) :
  let a := nextPromise (run events) in
  let asked op := run (events ++ [Call op; WriteDone a None; Data reply]) in
  outcome a (asked FocusInquiry)
  = Some (Fulfilled (VString (focusState (statusNibble reply))))
  /\ outcome a (asked WhiteBalanceInquiry)
     = Some (Fulfilled (VString (whiteBalanceState (statusNibble reply))))
  /\ outcome a (asked BacklightInquiry)
     = Some (Fulfilled (VString (backlightState (statusNibble reply))))
  /\ outcome a (asked ColorFormatInquiry)
     = Some (Fulfilled (VString (colorFormatState (statusNibble reply)))).
Proof.
  intros a asked. unfold asked, a.
  rewrite (inquiry_resolves events FocusInquiry
             "81 09 04 38 FF" focusInquiry_reply reply)
    by (intros cam; reflexivity).
  rewrite (inquiry_resolves events WhiteBalanceInquiry
             "81 09 04 35 FF" whiteBalanceInquiry_reply reply)
    by (intros cam; reflexivity).
  rewrite (inquiry_resolves events BacklightInquiry
             "81 09 04 33 FF" backlightInquiry_reply reply)
    by (intros cam; reflexivity).
  rewrite (inquiry_resolves events ColorFormatInquiry
             "81 09 7E 01 03 FF" colorFormatInquiry_reply reply)
    by (intros cam; reflexivity).
  fold (replyText "81 09 04 38 FF" reply).
  fold (replyText "81 09 04 35 FF" reply).
  fold (replyText "81 09 04 33 FF" reply).
  fold (replyText "81 09 7E 01 03 FF" reply).
  rewrite focusInquiry_reply_table, whiteBalanceInquiry_reply_table,
    backlightInquiry_reply_table, colorFormatInquiry_reply_table.
  repeat split.
Qed.

(** ** A cancel that sends nothing *)

(** X25. [cancelCommand] reports success without having sent anything: in
    every reachable state and for every socket, the buffer it hands to the
    transport is empty, and once the write callback runs without error its
    promise is fulfilled with [response = true]. *)
Theorem cancel_succeeds_without_sending (events : list Event)
    (socket : option Z) :
  let a := nextPromise (run events) in
  let after := run (events ++ [Call (CancelCommand socket); WriteDone a None]) in
  exists cmd,
    outcome a after
    = Some (Fulfilled (VResponse {| command := cmd; response := RespTrue |}))
    /\ written after = (written (run events) ++ [[]])%list.
Proof.
  intros a after.
  assert (S : exists cmd,
             (forall cam,
                 invoke (CancelCommand socket) cam
                 = sendCommand cmd false VResponse cam)
             /\ Buffer.fromHex (Js.stripSpaces cmd) = []).
  { simpl.
    destruct (cancel_socket_shape (orDefault 1 socket) constructor)
      as [E|E]; unfold cancelCommand in *;
      destruct (orDefault 1 socket <? 1);
      try (eexists; split; [intros cam; reflexivity|reflexivity]);
      destruct (orDefault 1 socket >? 2);
      try (eexists; split; [intros cam; reflexivity|reflexivity]);
      inversion E as [[Hw Hc]];
      eexists; (split; [intros cam; reflexivity|]);
      apply (f_equal (fun l => last l [])) in Hw;
      rewrite !last_last in Hw; exact Hw. }
  destruct S as [cmd [Hop Hempty]]. exists cmd.
  assert (Hwf : wellFormed (run events)) by apply wellFormed_run.
  destruct (fresh_promise _ a Hwf (le_n _)) as [_ [_ Hs]].
  unfold after, a.
  rewrite (run_call_then_callback events _ cmd false VResponse None)
    by assumption.
  rewrite submitted_then_called_back by assumption.
  unfold outcome. simpl.
  rewrite (outcome_last (run events)) by assumption.
  rewrite Hempty. split; reflexivity.
Qed.

(** ** The methods on every Number, and on integers *)

Lemma append_empty (s : string) : s ++ "" = s.
Proof. induction s as [|c s IH]; simpl; [reflexivity|]. rewrite IH. reflexivity. Qed.

Lemma unit_positive (s : N) : 0 < Numeric.unit s.
Proof. unfold Numeric.unit. apply Z.pow_pos_nonneg; lia. Qed.

Lemma toString16_ofZ (z : Z) :
  Numeric.toString16 (Numeric.ofZ z) = Js.toString16 z.
Proof.
  unfold Numeric.toString16, Numeric.ofZ, Js.toString16.
  change (Numeric.unit 0) with 1.
  rewrite Z.div_1_r, Z.mod_1_r. simpl (0 =? 0). cbv iota zeta.
  rewrite append_empty.
  destruct (z <? 0) eqn:E.
  - apply Z.ltb_lt in E. rewrite Z.abs_neq by lia. reflexivity.
  - apply Z.ltb_ge in E. rewrite Z.abs_eq by lia. reflexivity.
Qed.

Lemma lt_ofZ (z k : Z) : Numeric.lt (Numeric.ofZ z) k = (z <? k).
Proof.
  unfold Numeric.lt, Numeric.ofZ. change (Numeric.unit 0) with 1.
  rewrite Z.mul_1_r. reflexivity.
Qed.

Lemma gt_ofZ (z k : Z) : Numeric.gt (Numeric.ofZ z) k = (z >? k).
Proof.
  unfold Numeric.gt, Numeric.ofZ. change (Numeric.unit 0) with 1.
  rewrite Z.mul_1_r. reflexivity.
Qed.

Lemma equals_ofZ (z k : Z) : Numeric.equals (Numeric.ofZ z) k = (z =? k).
Proof.
  unfold Numeric.equals, Numeric.ofZ. change (Numeric.unit 0) with 1.
  rewrite Z.mul_1_r. reflexivity.
Qed.

Lemma clampTo_ofZ (hi z : Z) :
  Numeric.clampTo hi (Numeric.ofZ z)
  = Numeric.ofZ (let z := if z <? 1 then 1 else z in
                 if z >? hi then hi else z).
Proof.
  unfold Numeric.clampTo. cbv zeta. rewrite lt_ofZ.
  destruct (z <? 1); rewrite gt_ofZ;
    match goal with |- context [if ?c then _ else _] => destruct c end;
    reflexivity.
Qed.

Lemma getPanSpeed_ofZ (z : Z) :
  Numeric.getPanSpeed (Numeric.ofZ z) = getPanSpeed z.
Proof.
  change (Numeric.getPanSpeed (Numeric.ofZ z))
    with (Js.padStart 2 "0"
            (Numeric.toString16 (Numeric.clampTo 18 (Numeric.ofZ z)))).
  rewrite clampTo_ofZ, toString16_ofZ. reflexivity.
Qed.

Lemma getTiltSpeed_ofZ (z : Z) :
  Numeric.getTiltSpeed (Numeric.ofZ z) = getTiltSpeed z.
Proof.
  change (Numeric.getTiltSpeed (Numeric.ofZ z))
    with (Js.padStart 2 "0"
            (Numeric.toString16 (Numeric.clampTo 14 (Numeric.ofZ z)))).
  rewrite clampTo_ofZ, toString16_ofZ. reflexivity.
Qed.

Lemma toHex_ofZ (z : Z) : Numeric.toHex (Numeric.ofZ z) = toHex z.
Proof.
  unfold Numeric.toHex, toHex. cbv zeta. rewrite lt_ofZ.
  destruct (z <? 0); [|apply f_equal, toString16_ofZ].
  unfold Numeric.plus, Numeric.ofZ. change (Numeric.unit 0) with 1.
  rewrite Z.mul_1_r. apply f_equal. apply (toString16_ofZ (z + 65536)).
Qed.

Lemma round_ofZ (z : Z) : Numeric.round (Numeric.ofZ z) = Numeric.ofZ z.
Proof.
  unfold Numeric.round, Numeric.ofZ. change (Numeric.unit 0) with 1.
  f_equal. symmetry. apply (Z.div_unique_pos _ _ _ 1); lia.
Qed.

Lemma cancelCommand_ofZ (z : Z) (cam : Huddlecam) :
  Numeric.cancelCommand (Numeric.ofZ z) cam = cancelCommand z cam.
Proof.
  change (Numeric.cancelCommand (Numeric.ofZ z) cam)
    with (sendCommand
            ("8x 2" ++ Js.padStart 2 "0"
                         (Numeric.toString16
                            (let socket :=
                               if Numeric.lt (Numeric.ofZ z) 1
                               then Numeric.ofZ 1 else Numeric.ofZ z in
                             if Numeric.gt socket 2
                             then Numeric.ofZ 2 else socket))
               ++ " FF") false VResponse cam).
  cbv zeta. rewrite lt_ofZ. unfold cancelCommand.
  destruct (z <? 1); rewrite gt_ofZ;
    match goal with |- context [if ?c then _ else _] => destruct c end;
    rewrite toString16_ofZ; reflexivity.
Qed.

Lemma moveTo_ofZ (ps ts pan tilt : Z) (relative : bool) (cam : Huddlecam) :
  Numeric.moveTo (Numeric.ofZ ps) (Numeric.ofZ ts)
    (Numeric.ofZ pan) (Numeric.ofZ tilt) relative cam
  = moveTo ps ts pan tilt relative cam.
Proof.
  unfold Numeric.moveTo, moveTo, Math_round. cbv zeta.
  rewrite !round_ofZ, !toHex_ofZ, getPanSpeed_ofZ, getTiltSpeed_ofZ.
  reflexivity.
Qed.

Lemma sendable_text (hi : Z) (speed : Numeric.Number) :
  1 <= hi ->
  Numeric.sendable hi speed = true ->
  1 <= Numeric.clamped hi speed <= hi
  /\ Numeric.toString16 (Numeric.clampTo hi speed)
     = Js.toString16 (Numeric.clamped hi speed).
Proof.
  intros Hhi Hs.
  unfold Numeric.sendable in Hs. unfold Numeric.clamped, Numeric.clampTo.
  cbv zeta.
  destruct (Numeric.lt speed 1) eqn:L.
  - rewrite gt_ofZ.
    destruct (1 >? hi) eqn:G; [apply Z.gtb_lt in G; lia|].
    split; [lia|apply toString16_ofZ].
  - destruct (Numeric.gt speed hi) eqn:G.
    + split; [lia|apply toString16_ofZ].
    + simpl in Hs. destruct speed as [m s| | |]; try discriminate.
      unfold Numeric.lt in L. unfold Numeric.gt in G.
      unfold Numeric.isWhole in Hs.
      pose proof (unit_positive s) as Hu.
      apply Z.ltb_ge in L. rewrite Z.gtb_ltb in G. apply Z.ltb_ge in G.
      apply Z.eqb_eq in Hs.
      assert (Hlo : 1 <= m / Numeric.unit s)
        by (apply Z.div_le_lower_bound; lia).
      assert (Hup : m / Numeric.unit s <= hi)
        by (apply Z.div_le_upper_bound; lia).
      split; [lia|].
      unfold Numeric.toString16, Js.toString16. cbv zeta.
      rewrite Z.abs_eq by lia. rewrite Hs. simpl (0 =? 0). cbv iota.
      rewrite append_empty.
      destruct (m <? 0) eqn:E; [apply Z.ltb_lt in E; lia|].
      destruct (m / Numeric.unit s <? 0) eqn:E';
        [apply Z.ltb_lt in E'; lia|reflexivity].
Qed.

Lemma getPanSpeed_sendable (ps : Numeric.Number) :
  Numeric.sendable 18 ps = true ->
  Numeric.getPanSpeed ps = getPanSpeed (Numeric.clamped 18 ps)
  /\ 1 <= Numeric.clamped 18 ps <= 18.
Proof.
  intros H. destruct (sendable_text 18 ps ltac:(lia) H) as [R E].
  split; [|assumption].
  change (Numeric.getPanSpeed ps)
    with (Js.padStart 2 "0" (Numeric.toString16 (Numeric.clampTo 18 ps))).
  rewrite E. unfold getPanSpeed.
  destruct (Numeric.clamped 18 ps <? 1) eqn:L; [apply Z.ltb_lt in L; lia|].
  destruct (Numeric.clamped 18 ps >? 18) eqn:G;
    [apply Z.gtb_lt in G; lia|reflexivity].
Qed.

Lemma getTiltSpeed_sendable (ts : Numeric.Number) :
  Numeric.sendable 14 ts = true ->
  Numeric.getTiltSpeed ts = getTiltSpeed (Numeric.clamped 14 ts)
  /\ 1 <= Numeric.clamped 14 ts <= 14.
Proof.
  intros H. destruct (sendable_text 14 ts ltac:(lia) H) as [R E].
  split; [|assumption].
  change (Numeric.getTiltSpeed ts)
    with (Js.padStart 2 "0" (Numeric.toString16 (Numeric.clampTo 14 ts))).
  rewrite E. unfold getTiltSpeed.
  destruct (Numeric.clamped 14 ts <? 1) eqn:L; [apply Z.ltb_lt in L; lia|].
  destruct (Numeric.clamped 14 ts >? 14) eqn:G;
    [apply Z.gtb_lt in G; lia|reflexivity].
Qed.


Lemma equals_directionValue (direction : Numeric.Number) (k : Z) :
  0 <= k <= 7 ->
  Numeric.equals direction k = (Numeric.directionValue direction =? k).
Proof.
  intros Hk.
  destruct direction as [m s| | |];
    unfold Numeric.equals, Numeric.directionValue;
    try (symmetry; apply Z.eqb_neq; lia).
  pose proof (unit_positive s) as Hu.
  destruct (m mod Numeric.unit s =? 0) eqn:W.
  - apply Z.eqb_eq in W.
    assert (Hm : m = Numeric.unit s * (m / Numeric.unit s))
      by (apply Z.div_exact; lia).
    destruct (m =? k * Numeric.unit s) eqn:E.
    + apply Z.eqb_eq in E. symmetry. apply Z.eqb_eq.
      rewrite E. apply Z.div_mul. lia.
    + apply Z.eqb_neq in E. symmetry. apply Z.eqb_neq.
      intros Hq. apply E. rewrite <- Hq. lia.
  - apply Z.eqb_neq in W.
    destruct (m =? k * Numeric.unit s) eqn:E.
    + apply Z.eqb_eq in E. exfalso. apply W. rewrite E.
      apply Z.mod_mul. lia.
    + symmetry. apply Z.eqb_neq. lia.
Qed.

Lemma move_directionValue (direction ps ts : Numeric.Number) cam :
  Numeric.move direction ps ts cam
  = Numeric.move (Numeric.ofZ (Numeric.directionValue direction)) ps ts cam.
Proof.
  unfold Numeric.move. cbv zeta.
  rewrite !(equals_directionValue direction) by lia.
  rewrite !equals_ofZ. reflexivity.
Qed.

Lemma move_shape (direction ps ts : Numeric.Number) (cam : Huddlecam) :
  Numeric.move direction ps ts cam = (cam, Undefined)
  \/ exists axes,
       Numeric.move direction ps ts cam
       = sendCommand
           ("81 01 06 01 " ++ Numeric.getPanSpeed ps ++ " "
              ++ Numeric.getTiltSpeed ts ++ " " ++ axes ++ " FF")
           false VResponse cam.
Proof.
  unfold Numeric.move. cbv zeta.
  repeat match goal with
         | |- context [if ?c then _ else _] =>
             destruct c; [right; eexists; reflexivity|]
         end.
  left. reflexivity.
Qed.

Lemma move_sendable (direction ps ts : Numeric.Number) (cam : Huddlecam) :
  Numeric.sendable 18 ps = true -> Numeric.sendable 14 ts = true ->
  Numeric.move direction ps ts cam
  = move (Numeric.directionValue direction)
      (Numeric.clamped 18 ps) (Numeric.clamped 14 ts) cam.
Proof.
  intros Hp Ht. rewrite move_directionValue.
  generalize (Numeric.directionValue direction) as d. intros d.
  destruct (getPanSpeed_sendable ps Hp) as [Ep _].
  destruct (getTiltSpeed_sendable ts Ht) as [Et _].
  unfold Numeric.move. cbv zeta. rewrite Ep, Et, !equals_ofZ.
  destruct (Z_lt_ge_dec d 0) as [Hlo|Hlo];
    [|destruct (Z_lt_ge_dec 7 d) as [Hhi|Hhi]].
  - rewrite move_outside by lia.
    repeat match goal with
           | |- context [?a =? ?b] =>
               destruct (a =? b) eqn:?E; [apply Z.eqb_eq in E; lia|clear E]
           end.
    reflexivity.
  - rewrite move_outside by lia.
    repeat match goal with
           | |- context [?a =? ?b] =>
               destruct (a =? b) eqn:?E; [apply Z.eqb_eq in E; lia|clear E]
           end.
    reflexivity.
  - destruct (move_inside d) as [dd ->]; [lia|].
    destruct dd; reflexivity.
Qed.

Lemma moveTo_sendable (ps ts pan tilt : Numeric.Number) (p t : Z)
    (relative : bool) (cam : Huddlecam) :
  Numeric.sendable 18 ps = true -> Numeric.sendable 14 ts = true ->
  Numeric.round pan = Numeric.ofZ p -> Numeric.round tilt = Numeric.ofZ t ->
  Numeric.moveTo ps ts pan tilt relative cam
  = moveTo (Numeric.clamped 18 ps) (Numeric.clamped 14 ts) p t relative cam.
Proof.
  intros Hp Ht Rp Rt.
  destruct (getPanSpeed_sendable ps Hp) as [Ep _].
  destruct (getTiltSpeed_sendable ts Ht) as [Et _].
  unfold Numeric.moveTo, moveTo, Math_round. cbv zeta.
  rewrite Rp, Rt, !toHex_ofZ, Ep, Et. reflexivity.
Qed.

Lemma exposureMode_selectable (mode : Numeric.Number) (cam : Huddlecam) :
  Numeric.selectable mode = true ->
  Numeric.exposureMode mode cam = exposureMode (Numeric.selected mode) cam
  /\ 0 <= Numeric.selected mode <= 3.
Proof.
  intros Hs. unfold Numeric.selectable in Hs.
  unfold Numeric.exposureMode, Numeric.selected. cbv zeta.
  destruct (Numeric.lt mode 0) eqn:L; [split; [reflexivity|lia]|].
  destruct (Numeric.gt mode 3) eqn:G; [split; [reflexivity|lia]|].
  simpl in Hs. destruct mode as [m s| | |]; try discriminate.
  pose proof (unit_positive s) as Hu.
  assert (Hv : Numeric.directionValue (Numeric.Finite m s)
               = m / Numeric.unit s)
    by (simpl; simpl in Hs; rewrite Hs; reflexivity).
  rewrite !equals_directionValue by lia. rewrite Hv.
  unfold Numeric.lt in L. unfold Numeric.gt in G.
  apply Z.ltb_ge in L. rewrite Z.gtb_ltb in G.
  apply Z.ltb_ge in G.
  assert (Hlo : 0 <= m / Numeric.unit s)
    by (apply Z.div_le_lower_bound; lia).
  assert (Hup : m / Numeric.unit s <= 3)
    by (apply Z.div_le_upper_bound; lia).
  split; [|lia].
  assert (C : m / Numeric.unit s = 0 \/ m / Numeric.unit s = 1
              \/ m / Numeric.unit s = 2 \/ m / Numeric.unit s = 3) by lia.
  destruct C as [C|[C|[C|C]]]; rewrite C; reflexivity.
Qed.

(** ** Clamped speeds and sockets, on every Number *)


Lemma clamp_clamped (hi : Z) (c : Z) : 1 <= c <= hi -> clamp 1 hi c = c.
Proof. unfold clamp. lia. Qed.



Lemma move_speed_bytes (d : Direction) (ps ts : Numeric.Number)
    (cam : Huddlecam) :
  Numeric.sendable 18 ps = true -> Numeric.sendable 14 ts = true ->
  emitted (Numeric.move (Numeric.ofZ (directionCode d)) ps ts) cam
  = [[x81; x01; x06; x01;
      Buffer.byteOf (Numeric.clamped 18 ps);
      Buffer.byteOf (Numeric.clamped 14 ts);
      fst (axisBytes d); snd (axisBytes d); xff]].
Proof.
  intros Hp Ht.
  destruct (getPanSpeed_sendable ps Hp) as [_ Rp].
  destruct (getTiltSpeed_sendable ts Ht) as [_ Rt].
  unfold emitted. rewrite move_sendable by assumption.
  fold (emitted (move (Numeric.directionValue (Numeric.ofZ (directionCode d)))
                   (Numeric.clamped 18 ps) (Numeric.clamped 14 ts)) cam).
  replace (Numeric.directionValue (Numeric.ofZ (directionCode d)))
    with (directionCode d) by (destruct d; reflexivity).
  rewrite move_frame_axes. rewrite !clamp_clamped by assumption.
  reflexivity.
Qed.




(** C9. [cancelCommand] clamps the socket in the text of its command, but
    sends no frame for socket 1 or for socket 2: for every socket, whole or
    not, in range or not, the buffer handed to the transport is empty. The
    command text of socket 0 is that of socket 1 and the text of socket 5
    that of socket 2, neither starts with two hexadecimal digits, and every
    call returns a promise. *)
Theorem cancel_sends_no_socket_frame (socket : Numeric.Number)
    (cam : Huddlecam) :
  emitted (Numeric.cancelCommand socket) cam = [[]]
  /\ snd (Numeric.cancelCommand socket cam) = Promise (nextPromise cam)
  /\ (forall z, Numeric.cancelCommand (Numeric.ofZ z) cam = cancelCommand z cam)
  /\ cancelCommand 0 cam = sendCommand "8x 201 FF" false VResponse cam
  /\ cancelCommand 1 cam = sendCommand "8x 201 FF" false VResponse cam
  /\ cancelCommand 5 cam = sendCommand "8x 202 FF" false VResponse cam
  /\ cancelCommand 2 cam = sendCommand "8x 202 FF" false VResponse cam
  /\ Buffer.fromHex (Js.stripSpaces "8x 201 FF") = []
  /\ Buffer.fromHex (Js.stripSpaces "8x 202 FF") = []
  /\ emitted (cancelCommand 0) cam = [[]]
  /\ emitted (cancelCommand 1) cam = [[]]
  /\ emitted (cancelCommand 5) cam = [[]]
  /\ emitted (cancelCommand 2) cam = [[]].
Proof.
  split.
  { unfold Numeric.cancelCommand. cbv zeta.
    rewrite emitted_sendCommand. reflexivity. }
  split; [reflexivity|].
  split; [intros z; apply cancelCommand_ofZ|].
  repeat split; try reflexivity;
    unfold cancelCommand; simpl; apply emitted_sendCommand.
Qed.

(** ** The motion frames for Number arguments *)

Lemma emitted_same (m m' : Method) (cam : Huddlecam) :
  m cam = m' cam -> emitted m cam = emitted m' cam.
Proof. unfold emitted. intros ->. reflexivity. Qed.

Lemma directionValue_code (d : Direction) :
  Numeric.directionValue (Numeric.ofZ (directionCode d)) = directionCode d.
Proof. destruct d; reflexivity. Qed.

Lemma same_reading (a b c d b' : Z) :
  isNibble a -> isNibble b -> isNibble c -> isNibble d -> isNibble b' ->
  signed16 (hexValue [a; b; c; d]) = signed16 (hexValue [a; b'; c; d]) ->
  b = b'.
Proof.
  unfold isNibble, signed16, hexValue. simpl fold_left.
  intros Ha Hb Hc Hd Hb'.
  rewrite !Z.geb_leb.
  repeat match goal with
         | |- context [?x <=? ?y] => destruct (Z.leb_spec x y)
         end; lia.
Qed.

(** X13. What [moveTo] sends, read back by [positionInquiry]. For speeds
    that are sent as bytes and coordinates that round to 16-bit integers,
    the eight position bytes of the frame of [moveTo], put behind a reply
    header, are decoded to the rounded tilt and to the rounded pan whose
    second digit is replaced by its first; so pan comes back as rounded
    exactly when its two leading digits are equal. *)
Theorem moveTo_is_read_back (ps ts pan tilt : Numeric.Number) (p t : Z)
    (relative : bool) (cam : Huddlecam) (cmd : string) :
  Numeric.sendable 18 ps = true -> Numeric.sendable 14 ts = true ->
  Numeric.round pan = Numeric.ofZ p -> Numeric.round tilt = Numeric.ofZ t ->
  -32768 <= p <= 32767 -> -32768 <= t <= 32767 ->
  exists frame,
    emitted (Numeric.moveTo ps ts pan tilt relative) cam = [frame]
    /\ positionInquiry_reply (replyText cmd (x90 :: x50 :: skipn 6 frame))
       = VPosition
           (Some (signed16 (hexValue [nibble 3 p; nibble 3 p;
                                      nibble 1 p; nibble 0 p])))
           (Some t)
    /\ (positionInquiry_reply (replyText cmd (x90 :: x50 :: skipn 6 frame))
        = VPosition (Some p) (Some t)
        <-> nibble 2 p = nibble 3 p).
Proof.
  intros Hp Ht Rp Rt Hpan Htilt.
  destruct (moveTo_read_back (Numeric.clamped 18 ps) (Numeric.clamped 14 ts)
              p t relative cam cmd Hpan Htilt) as [frame [E [R B]]].
  exists frame.
  split.
  { rewrite <- E. apply emitted_same. apply moveTo_sendable; assumption. }
  split; [exact R|].
  split; [|exact B].
  rewrite R. intros H. injection H as H'.
  assert (X : signed16 (hexValue [nibble 3 p; nibble 3 p;
                                  nibble 1 p; nibble 0 p])
              = signed16 (hexValue [nibble 3 p; nibble 2 p;
                                    nibble 1 p; nibble 0 p]))
    by (rewrite (nibbles_value p Hpan); exact H').
  symmetry. revert X. apply same_reading; apply nibble_range.
Qed.

Lemma moveTo_is_read_back_witness :
  exists frame,
    emitted (Numeric.moveTo (Numeric.ofZ 3) Numeric.Infinity
               (Numeric.Finite 33 1) (Numeric.Finite (-801) 1) false)
      constructor = [frame]
    /\ positionInquiry_reply
         (replyText "81 09 06 12 FF" (x90 :: x50 :: skipn 6 frame))
       = VPosition (Some 17) (Some (-400)).
Proof.
  destruct (moveTo_is_read_back (Numeric.ofZ 3) Numeric.Infinity
              (Numeric.Finite 33 1) (Numeric.Finite (-801) 1) 17 (-400)
              false constructor "81 09 06 12 FF")
    as [frame [E [_ H]]]; try reflexivity; try lia.
  exists frame. split; [exact E|]. apply H. reflexivity.
Defined.

(** X14. The frame of [move] tells the direction. For speeds that are sent
    as bytes, two of the eight directions never give the same frame, and the
    frame of a diagonal has the pan-axis byte of its sideways direction and
    the tilt-axis byte of its upright one. *)
Theorem move_frame_tells_direction (d d' : Direction)
    (ps ts : Numeric.Number) (cam : Huddlecam) :
  Numeric.sendable 18 ps = true -> Numeric.sendable 14 ts = true ->
  (emitted (Numeric.move (Numeric.ofZ (directionCode d)) ps ts) cam
   = emitted (Numeric.move (Numeric.ofZ (directionCode d')) ps ts) cam
   -> d = d')
  /\ (forall h frame frame',
        sideways d = Some h ->
        emitted (Numeric.move (Numeric.ofZ (directionCode d)) ps ts) cam
        = [frame] ->
        emitted (Numeric.move (Numeric.ofZ (directionCode h)) ps ts) cam
        = [frame'] ->
        nth_error frame 6 = nth_error frame' 6)
  /\ (forall v frame frame',
        upright d = Some v ->
        emitted (Numeric.move (Numeric.ofZ (directionCode d)) ps ts) cam
        = [frame] ->
        emitted (Numeric.move (Numeric.ofZ (directionCode v)) ps ts) cam
        = [frame'] ->
        nth_error frame 7 = nth_error frame' 7).
Proof.
  intros Hp Ht.
  split; [|split].
  - rewrite !move_speed_bytes by assumption. intros H.
    assert (A : axisBytes d = axisBytes d').
    { inversion H as [[H6 H7]].
      destruct (axisBytes d), (axisBytes d'). simpl in *. congruence. }
    destruct d, d'; try reflexivity; discriminate.
  - intros h frame frame' Hh. rewrite !move_speed_bytes by assumption.
    intros E E'. inversion E; inversion E'; subst. simpl.
    destruct d; inversion Hh; reflexivity.
  - intros v frame frame' Hv. rewrite !move_speed_bytes by assumption.
    intros E E'. inversion E; inversion E'; subst. simpl.
    destruct d; inversion Hv; reflexivity.
Qed.

Lemma move_frame_tells_direction_witness :
  nth_error [x81; x01; x06; x01; x05; x03; x01; x01; xff] 6
  = nth_error [x81; x01; x06; x01; x05; x03; x01; x03; xff] 6.
Proof.
  apply (proj1 (proj2 (move_frame_tells_direction
                         UpLeft UpLeft (Numeric.ofZ 5) (Numeric.Finite 6 1)
                         constructor eq_refl eq_refl)) Left);
    reflexivity.
Defined.

(** ** Speeds that are not sent as bytes *)

Lemma unsendable_text (hi : Z) (speed : Numeric.Number) :
  1 <= hi ->
  Numeric.sendable hi speed = false ->
  Numeric.toString16 (Numeric.clampTo hi speed) = "NaN"
  \/ exists whole fraction,
       1 <= whole < hi
       /\ Numeric.toString16 (Numeric.clampTo hi speed)
          = Js.toString16 whole ++ String "." fraction.
Proof.
  intros Hhi Hs. unfold Numeric.sendable in Hs.
  apply orb_false_elim in Hs. destruct Hs as [Hs W].
  apply orb_false_elim in Hs. destruct Hs as [L G].
  unfold Numeric.clampTo. cbv zeta. rewrite L, G.
  destruct speed as [m s| | |]; try discriminate;
    [|left; reflexivity].
  right.
  unfold Numeric.lt in L. unfold Numeric.gt in G.
  unfold Numeric.isWhole in W.
  pose proof (unit_positive s) as Hu.
  apply Z.ltb_ge in L. rewrite Z.gtb_ltb in G. apply Z.ltb_ge in G.
  apply Z.eqb_neq in W.
  assert (Hlo : 1 <= m / Numeric.unit s)
    by (apply Z.div_le_lower_bound; lia).
  assert (Hne : m <> hi * Numeric.unit s)
    by (intros ->; apply W, Z.mod_mul; lia).
  assert (Hup : m / Numeric.unit s < hi)
    by (apply Z.div_lt_upper_bound; lia).
  exists (m / Numeric.unit s).
  eexists. split; [lia|].
  unfold Numeric.toString16, Js.toString16. cbv zeta.
  rewrite Z.abs_eq by lia.
  destruct (m mod Numeric.unit s =? 0) eqn:E;
    [apply Z.eqb_eq in E; contradiction|].
  destruct (m <? 0) eqn:E1; [apply Z.ltb_lt in E1; lia|].
  destruct (m / Numeric.unit s <? 0) eqn:E2;
    [apply Z.ltb_lt in E2; lia|reflexivity].
Qed.

Lemma fromHex_after_point (whole : Z) (fraction : string) :
  1 <= whole <= 17 ->
  exists bytes,
    (bytes = [] \/ bytes = [x10] \/ bytes = [x11])
    /\ forall rest,
         Buffer.fromHex
           (Js.stripSpaces
              (Js.padStart 2 "0" (Js.toString16 whole ++ String "." fraction)
                 ++ rest))
         = bytes.
Proof.
  intros H.
  assert (C : whole = 1 \/ whole = 2 \/ whole = 3 \/ whole = 4 \/ whole = 5
              \/ whole = 6 \/ whole = 7 \/ whole = 8 \/ whole = 9
              \/ whole = 10 \/ whole = 11 \/ whole = 12 \/ whole = 13
              \/ whole = 14 \/ whole = 15 \/ whole = 16 \/ whole = 17)
    by lia.
  clear H.
  repeat (destruct C as [-> | C];
          [exists []; split; [left; reflexivity|intros rest; reflexivity]|]).
  destruct C as [-> | ->].
  - exists [x10]. split; [right; left; reflexivity|]. intros rest.
    transitivity
      (Buffer.fromHex
         (String "1"
            (String "0" (String "." (Js.stripSpaces (fraction ++ rest))))));
      [reflexivity|destruct (Js.stripSpaces (fraction ++ rest)); reflexivity].
  - exists [x11]. split; [right; right; reflexivity|]. intros rest.
    transitivity
      (Buffer.fromHex
         (String "1"
            (String "1" (String "." (Js.stripSpaces (fraction ++ rest))))));
      [reflexivity|destruct (Js.stripSpaces (fraction ++ rest)); reflexivity].
Qed.

Lemma unsendable_bytes (hi : Z) (speed : Numeric.Number) :
  1 <= hi <= 18 ->
  Numeric.sendable hi speed = false ->
  exists bytes,
    (bytes = [] \/ bytes = [x10] \/ bytes = [x11])
    /\ forall rest,
         Buffer.fromHex
           (Js.stripSpaces
              (Js.padStart 2 "0"
                 (Numeric.toString16 (Numeric.clampTo hi speed))
                 ++ rest))
         = bytes.
Proof.
  intros Hhi Hs.
  destruct (unsendable_text hi speed ltac:(lia) Hs)
    as [-> | [whole [fraction [Hw ->]]]].
  - exists []. split; [left; reflexivity|intros rest; reflexivity].
  - apply fromHex_after_point. lia.
Qed.

Lemma pan_byte (c : Z) (rest : string) :
  1 <= c <= 18 ->
  Buffer.fromHex (Js.stripSpaces (hex2 c ++ " " ++ rest))
  = Buffer.byteOf c :: Buffer.fromHex (Js.stripSpaces rest).
Proof.
  intros H.
  assert (C : c = 1 \/ c = 2 \/ c = 3 \/ c = 4 \/ c = 5 \/ c = 6
              \/ c = 7 \/ c = 8 \/ c = 9 \/ c = 10 \/ c = 11
              \/ c = 12 \/ c = 13 \/ c = 14 \/ c = 15 \/ c = 16
              \/ c = 17 \/ c = 18) by lia.
  clear H.
  repeat (destruct C as [-> | C]; [reflexivity|]).
  subst c. reflexivity.
Qed.

(** The frame of [move], as far as the pan speed lets it go. *)
Lemma move_pan_cases (direction ps ts : Numeric.Number) (cam : Huddlecam) :
  emitted (Numeric.move direction ps ts) cam = []
  \/ (Numeric.sendable 18 ps = true
      /\ exists rest,
           emitted (Numeric.move direction ps ts) cam
           = [x81 :: x01 :: x06 :: x01
                :: Buffer.byteOf (Numeric.clamped 18 ps) :: rest])
  \/ (Numeric.sendable 18 ps = false
      /\ exists rest,
           emitted (Numeric.move direction ps ts) cam
           = [x81 :: x01 :: x06 :: x01 :: rest]
           /\ (rest = [] \/ rest = [x10] \/ rest = [x11])).
Proof.
  destruct (move_shape direction ps ts cam) as [E | [axes E]].
  { left. apply emitted_unchanged. rewrite E. reflexivity. }
  right.
  assert (F : emitted (Numeric.move direction ps ts) cam
              = [x81 :: x01 :: x06 :: x01
                   :: Buffer.fromHex
                        (Js.stripSpaces
                           (Numeric.getPanSpeed ps ++ " "
                              ++ Numeric.getTiltSpeed ts ++ " " ++ axes
                              ++ " FF"))]).
  { unfold emitted. rewrite E. apply emitted_sendCommand. }
  destruct (Numeric.sendable 18 ps) eqn:Hp; [left|right];
    (split; [reflexivity|]).
  - destruct (getPanSpeed_sendable ps Hp) as [Ep Rp].
    eexists. rewrite F, Ep, getPanSpeed_clamp, clamp_clamped by assumption.
    rewrite pan_byte by assumption. reflexivity.
  - destruct (unsendable_bytes 18 ps ltac:(lia) Hp) as [bytes [Hb Hr]].
    exists bytes. split; [|exact Hb].
    rewrite F. do 5 f_equal. apply Hr.
Qed.

(** X15. [move] never sends the frame of [stop]. Whatever Numbers the
    direction and the two speeds are (whole or not, finite or not), a call
    of [move] sends nothing, or one frame that is not the frame of [stop]:
    its pan-speed byte, when it has one, is not [00], which the frame of
    [stop] has there. *)
Theorem move_is_never_stop (direction ps ts : Numeric.Number)
    (cam : Huddlecam) :
  emitted stop cam = [[x81; x01; x06; x01; x00; x00; x03; x03; xff]]
  /\ emitted (Numeric.move direction ps ts) cam <> emitted stop cam
  /\ forall frame,
       In frame (emitted (Numeric.move direction ps ts) cam) ->
       nth_error frame 4 <> Some x00.
Proof.
  assert (Hs : emitted stop cam
               = [[x81; x01; x06; x01; x00; x00; x03; x03; xff]])
    by apply emitted_sendCommand.
  split; [exact Hs|]. rewrite Hs. clear Hs.
  destruct (move_pan_cases direction ps ts cam)
    as [-> | [[Hp [rest ->]] | [Hp [rest [-> Hr]]]]].
  - split; [discriminate|intros frame []].
  - destruct (getPanSpeed_sendable ps Hp) as [_ Rp].
    assert (Hc : Buffer.byteOf (Numeric.clamped 18 ps) <> x00)
      by (apply byteOf_small; lia).
    split.
    + intros H. apply Hc. congruence.
    + intros frame [<- | []]. simpl. congruence.
  - split.
    + destruct Hr as [-> | [-> | ->]]; discriminate.
    + intros frame [<- | []].
      destruct Hr as [-> | [-> | ->]]; discriminate.
Qed.

(** X16. The frame of [moveTo] is fifteen bytes, for speeds that are sent
    as bytes and coordinates that round to 16-bit integers: the prefix
    [81 01 06], the mode ([02] absolute, [03] relative), the two clamped
    speeds, four pan bytes, four tilt bytes and the terminator; an absolute
    and a relative call with the same arguments differ in the mode byte
    only. *)
Theorem moveTo_frame_is_fifteen_bytes (ps ts pan tilt : Numeric.Number)
    (p t : Z) (relative : bool) (cam : Huddlecam) :
  Numeric.sendable 18 ps = true -> Numeric.sendable 14 ts = true ->
  Numeric.round pan = Numeric.ofZ p -> Numeric.round tilt = Numeric.ofZ t ->
  -32768 <= p <= 32767 -> -32768 <= t <= 32767 ->
  exists speeds position,
    emitted (Numeric.moveTo ps ts pan tilt relative) cam
    = [([x81; x01; x06; (if relative then x03 else x02)]
          ++ speeds ++ position ++ [xff])%list]
    /\ emitted (Numeric.moveTo ps ts pan tilt (negb relative)) cam
       = [([x81; x01; x06; (if relative then x02 else x03)]
             ++ speeds ++ position ++ [xff])%list]
    /\ speeds = [Buffer.byteOf (Numeric.clamped 18 ps);
                 Buffer.byteOf (Numeric.clamped 14 ts)]
    /\ List.length position = 8%nat
    /\ Forall (fun b => isNibble (Buffer.valueOf b)) position.
Proof.
  intros Hp Ht Rp Rt Hpan Htilt.
  destruct (getPanSpeed_sendable ps Hp) as [_ Cp].
  destruct (getTiltSpeed_sendable ts Ht) as [_ Ct].
  destruct (moveTo_frame_bytes (Numeric.clamped 18 ps)
              (Numeric.clamped 14 ts) p t relative cam Hpan Htilt)
    as [speeds [position [E [E' [S [L F]]]]]].
  exists speeds, position.
  split; [rewrite <- E; apply emitted_same, moveTo_sendable; assumption|].
  split; [rewrite <- E'; apply emitted_same, moveTo_sendable; assumption|].
  split; [|split; assumption].
  rewrite S, !clamp_clamped by assumption. reflexivity.
Qed.

Lemma moveTo_frame_is_fifteen_bytes_witness :
  exists speeds position,
    emitted (Numeric.moveTo (Numeric.ofZ 3) (Numeric.ofZ 3)
               (Numeric.Finite 2015 1) (Numeric.ofZ 228) false) constructor
    = [([x81; x01; x06; x02] ++ speeds ++ position ++ [xff])%list]
    /\ List.length position = 8%nat.
Proof.
  destruct (moveTo_frame_is_fifteen_bytes (Numeric.ofZ 3) (Numeric.ofZ 3)
              (Numeric.Finite 2015 1) (Numeric.ofZ 228) 1008 228 false
              constructor)
    as [speeds [position [E [_ [_ [L _]]]]]]; try reflexivity; try lia.
  exists speeds, position. split; assumption.
Defined.

(** X17. Frames are well delimited when the arguments are sent as bytes. A
    frame handed to the transport starts with the address byte [81], ends
    with the terminator [FF] and has no [FF] before its end: for every
    operation but [cancelCommand] on integer arguments ([moveTo] with
    16-bit coordinates); for [exposureMode] on a mode that is whole or out
    of range; for [move] on speeds that are whole or out of range, whatever
    the direction; and for [moveTo] on such speeds and coordinates that
    round to 16-bit integers. *)
Theorem frames_are_well_delimited (cam : Huddlecam) (frame : list byte) :
  (forall op,
     terminatedOperation op ->
     In frame (emitted (invoke op) cam) -> delimited frame)
  /\ (forall mode,
        Numeric.selectable mode = true ->
        In frame (emitted (Numeric.exposureMode mode) cam) ->
        delimited frame)
  /\ (forall direction ps ts,
        Numeric.sendable 18 ps = true -> Numeric.sendable 14 ts = true ->
        In frame (emitted (Numeric.move direction ps ts) cam) ->
        delimited frame)
  /\ (forall ps ts pan tilt p t relative,
        Numeric.sendable 18 ps = true -> Numeric.sendable 14 ts = true ->
        Numeric.round pan = Numeric.ofZ p ->
        Numeric.round tilt = Numeric.ofZ t ->
        -32768 <= p <= 32767 -> -32768 <= t <= 32767 ->
        In frame (emitted (Numeric.moveTo ps ts pan tilt relative) cam) ->
        delimited frame).
Proof.
  split; [intros op; apply frames_are_delimited|].
  split; [|split].
  - intros mode Hm Hin.
    destruct (exposureMode_selectable mode cam Hm) as [E _].
    apply (frames_are_delimited (ExposureMode (Numeric.selected mode)) cam);
      [exact I|].
    rewrite (emitted_same _ _ _ E) in Hin. exact Hin.
  - intros direction ps ts Hp Ht Hin.
    apply (frames_are_delimited
             (Move (Numeric.directionValue direction)
                (Some (Numeric.clamped 18 ps))
                (Some (Numeric.clamped 14 ts))) cam); [exact I|].
    rewrite (emitted_same _ _ _ (move_sendable direction ps ts cam Hp Ht))
      in Hin.
    exact Hin.
  - intros ps ts pan tilt p t relative Hp Ht Rp Rt Hpan Htilt Hin.
    apply (frames_are_delimited
             (MoveTo (Numeric.clamped 18 ps) (Numeric.clamped 14 ts) p t
                (Some relative)) cam); [split; assumption|].
    rewrite (emitted_same _ _ _
               (moveTo_sendable ps ts pan tilt p t relative cam
                  Hp Ht Rp Rt)) in Hin.
    exact Hin.
Qed.

Lemma cut_frame_is_open (rest : list byte) :
  rest = [] \/ rest = [x10] \/ rest = [x11] ->
  ~ delimited (x81 :: x01 :: x06 :: x01 :: rest).
Proof.
  intros Hr [body [E _]].
  assert (L : last (x81 :: x01 :: x06 :: x01 :: rest) x00 = xff).
  { rewrite E. change (x81 :: (body ++ [xff])%list)
      with ((x81 :: body) ++ [xff])%list.
    apply last_last. }
  destruct Hr as [-> | [-> | ->]]; discriminate.
Qed.

(** X18. A pan speed that is not sent as a byte cuts the frame. When the
    pan speed is a number between 1 and 18 that is not whole, or [NaN], the
    frame of [move] ends where the speed is not two hexadecimal digits: it
    is [81 01 06 01], followed by [10] or [11] when the whole part of the
    speed is 16 or 17; it has no terminator, and it is the same frame in
    all eight directions and for every tilt speed. *)
Theorem fractional_pan_speed_cuts_the_frame (ps : Numeric.Number) :
  Numeric.sendable 18 ps = false ->
  exists rest,
    (rest = [] \/ rest = [x10] \/ rest = [x11])
    /\ ~ delimited (x81 :: x01 :: x06 :: x01 :: rest)
    /\ forall d ts cam,
         emitted (Numeric.move (Numeric.ofZ (directionCode d)) ps ts) cam
         = [x81 :: x01 :: x06 :: x01 :: rest].
Proof.
  intros Hp.
  destruct (unsendable_bytes 18 ps ltac:(lia) Hp) as [rest [Hr Hb]].
  exists rest. split; [exact Hr|].
  split; [apply cut_frame_is_open; exact Hr|].
  intros d ts cam.
  assert (F : forall axes,
             emitted
               (sendCommand
                  ("81 01 06 01 " ++ Numeric.getPanSpeed ps ++ " "
                     ++ Numeric.getTiltSpeed ts ++ " " ++ axes ++ " FF")
                  false VResponse) cam
             = [x81 :: x01 :: x06 :: x01 :: rest]).
  { intros axes. rewrite emitted_sendCommand.
    change (Buffer.fromHex
              (Js.stripSpaces
                 ("81 01 06 01 " ++ Numeric.getPanSpeed ps ++ " "
                    ++ Numeric.getTiltSpeed ts ++ " " ++ axes ++ " FF")))
      with (x81 :: x01 :: x06 :: x01
              :: Buffer.fromHex
                   (Js.stripSpaces
                      (Js.padStart 2 "0"
                         (Numeric.toString16 (Numeric.clampTo 18 ps))
                         ++ " " ++ Numeric.getTiltSpeed ts ++ " " ++ axes
                         ++ " FF"))).
    rewrite Hb. reflexivity. }
  destruct d; apply F.
Qed.

Lemma fractional_pan_speed_cuts_the_frame_witness :
  exists rest,
    emitted (Numeric.move (Numeric.ofZ 2) (Numeric.Finite 35 1)
               (Numeric.ofZ 3)) constructor
    = [x81 :: x01 :: x06 :: x01 :: rest]
    /\ ~ delimited (x81 :: x01 :: x06 :: x01 :: rest).
Proof.
  destruct (fractional_pan_speed_cuts_the_frame (Numeric.Finite 35 1)
              eq_refl) as [rest [_ [O E]]].
  exists rest. split; [apply (E Left)|exact O].
Defined.
